(** * DocuAPI: the spec loader and the document renderer

    A shallow embedding of [src/generator.js], of the parser module
    ([parseSpec], [validateSpec]) and of the command line ([parseArgs],
    [main]) of DocuAPI, with the properties its specification states about
    them.

    Modelling conventions.
    - A JavaScript string is a [string]: a sequence of characters of the ASCII
      range.  Text outside ASCII is not covered ([toLowerCase] and
      [toUpperCase] only move the 26 letters).
    - A decoded document is a [JsVal].  A number is a safe integer ([JNum]:
      an integer of magnitude below 2^53, which JavaScript prints with all
      its digits); other numbers are not values of the model.
    - An object is the list of its own enumerable properties in the order in
      which [Object.entries] lists them.  The keys of a JavaScript object are
      pairwise distinct; statements that depend on it assume [NoDup] of the
      keys.
    - The only exception the code under study can raise on such values is a
      [TypeError]; [result] carries it. *)

From Stdlib Require Import String Ascii List ZArith Lia Bool Arith.
From Stdlib Require Import DecimalString.
Import ListNotations.

Local Open Scope list_scope.
Local Open Scope string_scope.

Set Warnings "-register-all".

(* ================================================================== *)
(** * Strings *)

(** The double quote character, and a template helper: the text of a
    template literal is written with a tilde wherever the source has a double
    quote (no template of the source contains a tilde). *)
Definition dquote : ascii := ascii_of_nat 34.

Fixpoint tpl (s : string) : string :=
  match s with
  | EmptyString => EmptyString
  | String c r => String (if Ascii.eqb c "~"%char then dquote else c) (tpl r)
  end.

(** [Array.prototype.join('')] on an array of strings. *)
Fixpoint join (l : list string) : string :=
  match l with
  | [] => ""
  | s :: r => s ++ join r
  end.

(** [parts.join(sep)]. *)
Fixpoint joinWith (sep : string) (l : list string) : string :=
  match l with
  | [] => ""
  | [s] => s
  | s :: r => s ++ sep ++ joinWith sep r
  end.

(** [str.replace(/c/g, by)] for a one-character pattern. *)
Fixpoint replaceAll (c : ascii) (by_ : string) (s : string) : string :=
  match s with
  | EmptyString => EmptyString
  | String a r =>
      if Ascii.eqb a c then by_ ++ replaceAll c by_ r
      else String a (replaceAll c by_ r)
  end.

Definition mapString (f : ascii -> ascii) : string -> string :=
  fix go (s : string) : string :=
    match s with
    | EmptyString => EmptyString
    | String a r => String (f a) (go r)
    end.

Definition between (lo hi : nat) (c : ascii) : bool :=
  let n := nat_of_ascii c in (lo <=? n)%nat && (n <=? hi)%nat.

Definition isUpper (c : ascii) : bool := between 65 90 c.
Definition isLower (c : ascii) : bool := between 97 122 c.
Definition isDigit (c : ascii) : bool := between 48 57 c.

Definition lowerChar (c : ascii) : ascii :=
  if isUpper c then ascii_of_nat (nat_of_ascii c + 32) else c.
Definition upperChar (c : ascii) : ascii :=
  if isLower c then ascii_of_nat (nat_of_ascii c - 32) else c.

(** [str.toLowerCase()] and [str.toUpperCase()]. *)
Definition toLowerCase : string -> string := mapString lowerChar.
Definition toUpperCase : string -> string := mapString upperChar.

(** [str.startsWith(p)]. *)
Definition startsWith (s p : string) : bool := String.prefix p s.

(** [hay.includes(needle)], and the proposition it decides. *)
Fixpoint includes (hay needle : string) : bool :=
  String.prefix needle hay ||
  match hay with
  | EmptyString => false
  | String _ r => includes r needle
  end.

Definition Infix_ (needle hay : string) : Prop :=
  exists pre post, hay = pre ++ needle ++ post.

Fixpoint occurs (c : ascii) (s : string) : bool :=
  match s with
  | EmptyString => false
  | String a r => Ascii.eqb a c || occurs c r
  end.

(** [str.split(sep)] for a one-character separator: the segments between
    the separators, never an empty list. *)
Fixpoint split (sep : ascii) (s : string) : list string :=
  match s with
  | EmptyString => [""]
  | String a r =>
      if Ascii.eqb a sep then "" :: split sep r
      else match split sep r with
           | [] => [String a ""]
           | seg :: segs => String a seg :: segs
           end
  end.

(** [arr.pop()] as an expression: the last element. *)
Definition pop (l : list string) : option string :=
  match rev l with
  | [] => None
  | x :: _ => Some x
  end.

Definition natToString (n : nat) : string :=
  NilZero.string_of_uint (Nat.to_uint n).
Definition intToString (z : Z) : string :=
  NilZero.string_of_int (Z.to_int z).

(* ================================================================== *)
(** * JavaScript values and the operations the renderer applies to them *)

(** The integers that a JavaScript number holds exactly. *)
Definition safeInteger (z : Z) : bool := (Z.abs z <? 9007199254740992)%Z.

Inductive JsVal : Type :=
| JUndefined
| JNull
| JBool (b : bool)
| JNum (z : Z) (safe : safeInteger z = true)
| JStr (s : string)
| JArr (elems : list JsVal)
| JObj (props : list (string * JsVal)).

Inductive result (A : Type) : Type :=
| Ok (a : A)
| TypeError.
Arguments Ok {A} a.
Arguments TypeError {A}.

Definition bind {A B} (r : result A) (k : A -> result B) : result B :=
  match r with
  | Ok a => k a
  | TypeError => TypeError
  end.

Notation "x <- r ;; k" := (bind r (fun x => k))
  (at level 61, r at next level, right associativity).

(** [arr.map(f)] where [f] may throw: the first exception aborts the map. *)
Fixpoint mapM {A B} (f : A -> result B) (l : list A) : result (list B) :=
  match l with
  | [] => Ok []
  | a :: r => b <- f a ;; bs <- mapM f r ;; Ok (b :: bs)
  end.

(** ToBoolean. *)
Definition truthy (v : JsVal) : bool :=
  match v with
  | JUndefined | JNull => false
  | JBool b => b
  | JNum z _ => negb (Z.eqb z 0)
  | JStr s => negb (String.eqb s "")
  | JArr _ | JObj _ => true
  end.

Definition nullish (v : JsVal) : bool :=
  match v with
  | JUndefined | JNull => true
  | _ => false
  end.

(** [a || b]. *)
Definition orElse (a b : JsVal) : JsVal := if truthy a then a else b.

Fixpoint lookup (k : string) (props : list (string * JsVal)) : JsVal :=
  match props with
  | [] => JUndefined
  | (k', v) :: r => if String.eqb k' k then v else lookup k r
  end.

Definition ownsKey (k : string) (props : list (string * JsVal)) : bool :=
  existsb (fun p => String.eqb (fst p) k) props.

(** [v.k] on a value that is neither [null] nor [undefined], for the property
    names the renderer reads other than [length] and [map]: none of them is
    defined on a built-in prototype, so they are own properties of an object
    and undefined on every other value. *)
Definition prop (v : JsVal) (k : string) : JsVal :=
  match v with
  | JObj props => lookup k props
  | _ => JUndefined
  end.

(** The truthiness of [v?.length]: arrays and strings have a length, an
    object has the one it owns, and no other value has one. *)
Definition hasLength (v : JsVal) : bool :=
  match v with
  | JArr l => negb (Nat.eqb (List.length l) 0)
  | JStr s => negb (Nat.eqb (String.length s) 0)
  | JObj props => truthy (lookup "length" props)
  | _ => false
  end.

(** [v.k]: a [TypeError] on [null] and [undefined]. *)
Definition get (v : JsVal) (k : string) : result JsVal :=
  if nullish v then TypeError else Ok (prop v k).

(** [v?.k]. *)
Definition optGet (v : JsVal) (k : string) : JsVal :=
  if nullish v then JUndefined else prop v k.

Fixpoint indexed {A} (i : nat) (l : list A) : list (string * A) :=
  match l with
  | [] => []
  | a :: r => (natToString i, a) :: indexed (S i) r
  end.

Fixpoint chars (s : string) : list JsVal :=
  match s with
  | EmptyString => []
  | String a r => JStr (String a "") :: chars r
  end.

(** [Object.entries(v)]. *)
Definition entries (v : JsVal) : result (list (string * JsVal)) :=
  match v with
  | JUndefined | JNull => TypeError
  | JBool _ | JNum _ _ => Ok []
  | JStr s => Ok (indexed 0 (chars s))
  | JArr l => Ok (indexed 0 l)
  | JObj props => Ok props
  end.

(** [String(v)], which is also what a template literal applies to an
    interpolated value.  An array joins the texts of its elements.  An object
    is converted by the [toString] it finds: the inherited one, which returns
    [[object Object]], unless the object owns a property of that name, which
    in a decoded document is never a function, and then the conversion throws
    a TypeError ([valueOf] returns the object itself). *)
Fixpoint toStr (v : JsVal) : result string :=
  match v with
  | JUndefined => Ok "undefined"
  | JNull => Ok "null"
  | JBool true => Ok "true"
  | JBool false => Ok "false"
  | JNum z _ => Ok (intToString z)
  | JStr s => Ok s
  | JArr l =>
      parts <- (fix elems (l : list JsVal) : result (list string) :=
                  match l with
                  | [] => Ok []
                  | x :: r =>
                      t <- (if nullish x then Ok "" else toStr x) ;;
                      ts <- elems r ;;
                      Ok (t :: ts)
                  end) l ;;
      Ok (joinWith "," parts)
  | JObj props =>
      if ownsKey "toString" props then TypeError else Ok "[object Object]"
  end.

Definition newline : string := String (ascii_of_nat 10) "".
Definition backslash : ascii := ascii_of_nat 92.

Definition hexDigit (n : nat) : string :=
  match String.get n "0123456789abcdef" with
  | Some c => String c ""
  | None => ""
  end.

(** [JSON.stringify(s)] on a string, QuoteJSONString: the escapes of the
    control characters, of the double quote and of the backslash. *)
Definition quoteChar (c : ascii) : string :=
  let n := nat_of_ascii c in
  if (n =? 8)%nat then String backslash "b"
  else if (n =? 9)%nat then String backslash "t"
  else if (n =? 10)%nat then String backslash "n"
  else if (n =? 12)%nat then String backslash "f"
  else if (n =? 13)%nat then String backslash "r"
  else if (n =? 34)%nat then String backslash (String dquote "")
  else if (n =? 92)%nat then String backslash (String backslash "")
  else if (n <? 32)%nat
       then String backslash "u00" ++ hexDigit (n / 16) ++ hexDigit (n mod 16)
  else String c "".

Fixpoint quoteBody (s : string) : string :=
  match s with
  | EmptyString => EmptyString
  | String a r => quoteChar a ++ quoteBody r
  end.

Definition quoteJSON (s : string) : string :=
  String dquote (quoteBody s ++ String dquote "").

(** [JSON.stringify(v, null, 2)] at the indentation [indent]; [None] is the
    [undefined] that [JSON.stringify(undefined)] returns.  Inside an array an
    [undefined] prints as [null]; inside an object its property is left
    out. *)
Fixpoint stringify (indent : string) (v : JsVal) : option string :=
  let inner := indent ++ "  " in
  let sep := "," ++ newline ++ inner in
  match v with
  | JUndefined => None
  | JNull => Some "null"
  | JBool true => Some "true"
  | JBool false => Some "false"
  | JNum z _ => Some (intToString z)
  | JStr s => Some (quoteJSON s)
  | JArr l =>
      match
        (fix elems (l : list JsVal) : list string :=
           match l with
           | [] => []
           | x :: r =>
               match stringify inner x with
               | Some t => t
               | None => "null"
               end :: elems r
           end) l
      with
      | [] => Some "[]"
      | parts =>
          Some ("[" ++ newline ++ inner ++ joinWith sep parts
                    ++ newline ++ indent ++ "]")
      end
  | JObj props =>
      match
        (fix members (ps : list (string * JsVal)) : list string :=
           match ps with
           | [] => []
           | (k, x) :: r =>
               match stringify inner x with
               | Some t => (quoteJSON k ++ ": " ++ t) :: members r
               | None => members r
               end
           end) props
      with
      | [] => Some "{}"
      | parts =>
          Some ("{" ++ newline ++ inner ++ joinWith sep parts
                    ++ newline ++ indent ++ "}")
      end
  end.

Definition JSON_stringify (v : JsVal) : JsVal :=
  match stringify "" v with
  | Some s => JStr s
  | None => JUndefined
  end.

(* ================================================================== *)
(** * generator.js: the helpers *)

(** [escapeHtml], lines 421-429: the five replacements, in the order of the
    source. *)
Definition escapeHtmlStr (s : string) : string :=
  replaceAll "'" "&#039;"
    (replaceAll dquote "&quot;"
      (replaceAll ">" "&gt;"
        (replaceAll "<" "&lt;"
          (replaceAll "&" "&amp;" s)))).

Definition escapeHtml (str : JsVal) : result string :=
  if negb (truthy str) then Ok ""
  else text <- toStr str ;; Ok (escapeHtmlStr text).

(** [slugify], lines 431-433. *)
Definition isSlugChar (c : ascii) : bool := isLower c || isDigit c.

Definition slugify (str : string) : string :=
  mapString (fun c => if isSlugChar c then c else "-"%char) (toLowerCase str).

(* ================================================================== *)
(** * generator.js: [generateHTML], lines 81-233 *)

Module Options.
Record t : Type := Build {
  theme : string;
  logo : option string;      (* a path, or null *)
  favicon : option string;   (* a path, or null *)
  tryItOut : bool;
  search : bool;
  toc : bool;
  title : JsVal
}.
End Options.

(** Truthiness of an option that is a string or null. *)
Definition given (o : option string) : option string :=
  match o with
  | Some s => if String.eqb s "" then None else Some s
  | None => None
  end.

(** Lines 112-116: one method of a path in the table of contents. *)
Definition tocMethod (path : string) (entry : string * JsVal) : string :=
  let '(method, details) := entry in
  tpl "
                  <li class=~method-" ++ method ++ tpl "~>
                    <a href=~#" ++ slugify path ++ "-" ++ method ++ tpl "~>" ++ toUpperCase method ++ "</a>
                  </li>
                ".

(** Lines 108-119: one path in the table of contents. *)
Definition tocPath (entry : string * JsVal) : result string :=
  let '(path, methods) := entry in
  pathText <- escapeHtml (JStr path) ;;
  ms <- entries methods ;;
  Ok (tpl "
            <li>
              <a href=~#" ++ slugify path ++ tpl "~>" ++ pathText ++ "</a>
              <ul>
                " ++ join (map (tocMethod path) ms) ++ "
              </ul>
            </li>
          ").

(** [Object.entries(v || {})]. *)
Definition entriesOrEmpty (v : JsVal) : result (list (string * JsVal)) :=
  entries (orElse v (JObj [])).

(** Lines 104-122: the table of contents. *)
Definition tocBlock (spec : JsVal) (toc : bool) : result string :=
  if toc then
    ps <- entriesOrEmpty (prop spec "paths") ;;
    items <- mapM tocPath ps ;;
    Ok (tpl "
      <nav class=~toc~>
        <h3>Endpoints</h3>
        <ul>
          " ++ join items ++ "
        </ul>
      </nav>
      ")
  else Ok "".

(** Lines 124-129: the search box. *)
Definition searchBlock (search : bool) : string :=
  if search then tpl "
      <div class=~search~>
        <input type=~text~ id=~search-input~ placeholder=~Search endpoints...~>
        <div id=~search-results~></div>
      </div>
      "
  else "".

(** Lines 137-142: the contact paragraph of the header. *)
Definition contactBlock (info : JsVal) : result string :=
  let contact := optGet info "contact" in
  if truthy contact then
    let email := prop contact "email" in
    let url := prop contact "url" in
    emailLink <- (if truthy email
                  then address <- toStr email ;;
                       text <- escapeHtml email ;;
                       Ok (tpl "<a href=~mailto:" ++ address ++ tpl "~>" ++ text ++ "</a>")
                  else Ok "") ;;
    urlLink <- (if truthy url
                then address <- toStr url ;;
                     text <- escapeHtml url ;;
                     Ok (tpl " | <a href=~" ++ address ++ tpl "~ target=~_blank~>" ++ text ++ "</a>")
                else Ok "") ;;
    Ok (tpl "
          <p class=~contact~>
            " ++ emailLink ++ "
            " ++ urlLink ++ "
          </p>
        ")
  else Ok "".

(** Lines 175-181: a row of the parameter table, given its five cells. *)
Definition paramRow (name type in_ required description : string) : string :=
  "
                        <tr>
                          <td><code>" ++ name ++ "</code></td>
                          <td>" ++ type ++ "</td>
                          <td>" ++ in_ ++ "</td>
                          <td>" ++ required ++ "</td>
                          <td>" ++ description ++ "</td>
                        </tr>
                      ".

(** Lines 174-182: the row of one parameter. *)
Definition renderParam (param : JsVal) : result string :=
  name <- get param "name" ;;
  nameCell <- escapeHtml name ;;
  typeCell <- escapeHtml (orElse (optGet (prop param "schema") "type") (JStr "string")) ;;
  inCell <- escapeHtml (prop param "in") ;;
  descriptionCell <- escapeHtml (orElse (prop param "description") (JStr "-")) ;;
  Ok (paramRow nameCell typeCell inCell
               (if truthy (prop param "required") then "Yes" else "No")
               descriptionCell).

(** Lines 161-185: the parameter table.  [details.parameters.map] is a
    function only when [parameters] is an array. *)
Definition parametersBlock (details : JsVal) : result string :=
  let parameters := prop details "parameters" in
  if hasLength parameters then
    match parameters with
    | JArr l =>
        rows <- mapM renderParam l ;;
        Ok (tpl "
                  <h3>Parameters</h3>
                  <table class=~params~>
                    <thead>
                      <tr>
                        <th>Name</th>
                        <th>Type</th>
                        <th>In</th>
                        <th>Required</th>
                        <th>Description</th>
                      </tr>
                    </thead>
                    <tbody>
                      " ++ join rows ++ "
                    </tbody>
                  </table>
                ")
    | _ => TypeError
    end
  else Ok "".

(** Lines 187-190: the request body. *)
Definition requestBodyBlock (details : JsVal) : result string :=
  let requestBody := prop details "requestBody" in
  if truthy requestBody then
    let schema := optGet (optGet (prop requestBody "content") "application/json") "schema" in
    text <- escapeHtml (JSON_stringify (orElse schema (JObj []))) ;;
    Ok (tpl "
                  <h3>Request Body</h3>
                  <pre><code class=~language-json~>" ++ text ++ "</code></pre>
                ")
  else Ok "".

(** Line 194: the class of a response, by its status code. *)
Definition responseClass (code : string) : string :=
  if startsWith code "2" then "success"
  else if startsWith code "4" then "client"
  else "server".

(** Lines 193-200: the block of one response. *)
Definition renderResponse (entry : string * JsVal) : result string :=
  let '(code, response) := entry in
  description <- get response "description" ;;
  let schema := optGet (optGet (prop response "content") "application/json") "schema" in
  descriptionText <- escapeHtml (orElse description (JStr "")) ;;
  schemaCode <- (if truthy schema
                 then text <- escapeHtml (JSON_stringify schema) ;;
                      Ok (tpl "
                      <pre><code class=~language-json~>" ++ text ++ "</code></pre>
                    ")
                 else Ok "") ;;
  Ok (tpl "
                  <div class=~response response-" ++ responseClass code ++ tpl "~>
                    <h4>" ++ code ++ " " ++ descriptionText ++ "</h4>
                    " ++ schemaCode ++ "
                  </div>
                ").

(** Lines 202-208: the Try It Out block. *)
Definition tryItOutBlock (tryItOut : bool) (path method : string) : string :=
  if tryItOut then tpl "
                  <div class=~try-it-out~>
                    <h4>Try It Out</h4>
                    <button onclick=~tryItOut('" ++ method ++ "', '" ++ path ++ tpl "')~>Send Request</button>
                    <pre id=~response-" ++ slugify path ++ "-" ++ method ++ tpl "~ class=~response-output hidden~></pre>
                  </div>
                "
  else "".

(** Lines 151-210: the block of one method of a path. *)
Definition renderMethod (tryItOut : bool) (path : string) (entry : string * JsVal)
  : result string :=
  let '(method, details) := entry in
  summary <- get details "summary" ;;
  let description := prop details "description" in
  pathText <- escapeHtml (JStr path) ;;
  summaryText <- escapeHtml (orElse (orElse summary description) (JStr "")) ;;
  descriptionParagraph <- (if truthy description
                           then text <- escapeHtml description ;;
                                Ok (tpl "<p class=~description~>" ++ text ++ "</p>")
                           else Ok "") ;;
  parameters <- parametersBlock details ;;
  requestBody <- requestBodyBlock details ;;
  rs <- entriesOrEmpty (prop details "responses") ;;
  responses <- mapM renderResponse rs ;;
  Ok (tpl "
              <div id=~" ++ slugify path ++ "-" ++ method ++ tpl "~ class=~endpoint method-" ++ method ++ tpl "~>
                <div class=~endpoint-header~>
                  <span class=~method~>" ++ toUpperCase method ++ tpl "</span>
                  <span class=~path~>" ++ pathText ++ tpl "</span>
                  <span class=~summary~>" ++ summaryText ++ "</span>
                </div>

                " ++ descriptionParagraph ++ "

                " ++ parameters ++ "

                " ++ requestBody ++ "

                <h3>Responses</h3>
                " ++ join responses ++ "

                " ++ tryItOutBlock tryItOut path method ++ "
              </div>
            ").

(** Lines 147-212: the block of one path. *)
Definition renderPath (tryItOut : bool) (entry : string * JsVal) : result string :=
  let '(path, methods) := entry in
  pathText <- escapeHtml (JStr path) ;;
  ms <- entries methods ;;
  blocks <- mapM (renderMethod tryItOut path) ms ;;
  Ok (tpl "
          <div id=~" ++ slugify path ++ tpl "~ class=~endpoint-group~>
            <h2>" ++ pathText ++ "</h2>

            " ++ join blocks ++ "
          </div>
        ").

(** Lines 146-213: the endpoints section, one block per path. *)
Definition endpointsSection (spec : JsVal) (tryItOut : bool) : result string :=
  ps <- entriesOrEmpty (prop spec "paths") ;;
  blocks <- mapM (renderPath tryItOut) ps ;;
  Ok (tpl "<section class=~endpoints~>
        " ++ join blocks ++ "
      </section>").

(** Lines 218-223: one entry of [components.schemas]. *)
Definition renderSchema (entry : string * JsVal) : result string :=
  let '(name, schema) := entry in
  nameText <- escapeHtml (JStr name) ;;
  text <- escapeHtml (JSON_stringify schema) ;;
  Ok (tpl "
            <div class=~schema~>
              <h3>" ++ nameText ++ tpl "</h3>
              <pre><code class=~language-json~>" ++ text ++ "</code></pre>
            </div>
          ").

(** Lines 215-225: the schemas section. *)
Definition schemasBlock (spec : JsVal) : result string :=
  let schemas := optGet (prop spec "components") "schemas" in
  if truthy schemas then
    ss <- entries schemas ;;
    items <- mapM renderSchema ss ;;
    Ok (tpl "
        <section class=~schemas~>
          <h2>Schemas</h2>
          " ++ join items ++ "
        </section>
      ")
  else Ok "".

(** Lines 81-233.  The first property read, [spec.info], throws when [spec]
    is null or undefined; past it [spec] is a value whose properties can be
    read, which is why the blocks above read them with [prop]. *)
Definition generateHTML (spec : JsVal) (options : Options.t) : result string :=
  let '(Options.Build theme logo favicon tryItOut search toc title) := options in
  info <- get spec "info" ;;
  titleText <- escapeHtml title ;;
  infoTitle <- escapeHtml (orElse (optGet info "title") (JStr "API Documentation")) ;;
  version <- escapeHtml (orElse (optGet info "version") (JStr "1.0.0")) ;;
  description <- escapeHtml (orElse (optGet info "description") (JStr "")) ;;
  contact <- contactBlock info ;;
  tocHtml <- tocBlock spec toc ;;
  endpoints <- endpointsSection spec tryItOut ;;
  schemas <- schemasBlock spec ;;
  Ok (tpl "<!DOCTYPE html>
<html lang=~en~>
<head>
  <meta charset=~UTF-8~>
  <meta name=~viewport~ content=~width=device-width, initial-scale=1.0~>
  <title>" ++ titleText ++ "</title>
  " ++ match given favicon with
       | Some f => tpl "<link rel=~icon~ href=~" ++ f ++ tpl "~>"
       | None => ""
       end ++ tpl "
  <link rel=~stylesheet~ href=~/assets/style.css~>
  <link rel=~stylesheet~ href=~https://cdnjs.cloudflare.com/ajax/libs/highlight.js/11.9.0/styles/github-dark.min.css~>
</head>
<body class=~theme-" ++ theme ++ tpl "~>
  <div class=~container~>
    <!-- Sidebar -->
    <aside class=~sidebar~>
      <div class=~sidebar-header~>
        " ++ match given logo with
             | Some l => tpl "<img src=~" ++ l ++ tpl "~ alt=~Logo~ class=~logo~>"
             | None => ""
             end ++ "
        <h1>" ++ infoTitle ++ tpl "</h1>
        <p class=~version~>" ++ version ++ "</p>
      </div>

      " ++ tocHtml ++ "

      " ++ searchBlock search ++ tpl "
    </aside>

    <!-- Main Content -->
    <main class=~content~>
      <header class=~header~>
        <h1>" ++ titleText ++ tpl "</h1>
        <p class=~description~>" ++ description ++ "</p>
        " ++ contact ++ tpl "
      </header>

      <!-- Endpoints -->
      " ++ endpoints ++ "

      " ++ schemas ++ tpl "
    </main>
  </div>

  <script src=~https://cdnjs.cloudflare.com/ajax/libs/highlight.js/11.9.0/highlight.min.js~></script>
  <script src=~/assets/app.js~></script>
</body>
</html>").

(* ================================================================== *)
(** * generator.js: [generateSearchIndex], lines 235-251 *)

Module SearchEntry.
Record t : Type := Build {
  path : string;
  method : string;
  title : JsVal;
  description : JsVal;
  slug : string
}.
End SearchEntry.

(** Lines 240-246: the entry pushed for one method of a path. *)
Definition searchEntry (path : string) (entry : string * JsVal)
  : result SearchEntry.t :=
  let '(method, details) := entry in
  summary <- get details "summary" ;;
  let description := prop details "description" in
  Ok (SearchEntry.Build
        path
        method
        (orElse (orElse summary description) (JStr path))
        (orElse description (JStr ""))
        (slugify path ++ "-" ++ method)).

(** The two loops push onto [index]; [acc] is the index so far.  An exception
    leaves the function without a result. *)
Fixpoint pushMethods (path : string) (ms : list (string * JsVal))
    (acc : list SearchEntry.t) : result (list SearchEntry.t) :=
  match ms with
  | [] => Ok acc
  | m :: r => e <- searchEntry path m ;; pushMethods path r (acc ++ [e])%list
  end.

Fixpoint pushPaths (ps : list (string * JsVal)) (acc : list SearchEntry.t)
  : result (list SearchEntry.t) :=
  match ps with
  | [] => Ok acc
  | (path, methods) :: r =>
      ms <- entries methods ;;
      acc' <- pushMethods path ms acc ;;
      pushPaths r acc'
  end.

(** The returned object [{ index }] is represented by its [index]. *)
Definition generateSearchIndex (spec : JsVal) : result (list SearchEntry.t) :=
  paths <- get spec "paths" ;;
  ps <- entriesOrEmpty paths ;;
  pushPaths ps [].

(* ================================================================== *)
(** * generator.js: [getCSS], lines 253-360 *)

Module Colors.
Record t : Type := Build {
  bg : string;
  text : string;
  sidebar : string;
  border : string;
  code : string
}.
End Colors.

Definition light : Colors.t :=
  Colors.Build "#ffffff" "#333333" "#f8f9fa" "#e1e4e8" "#f6f8fa".
Definition dark : Colors.t :=
  Colors.Build "#1a1a1a" "#e6e6e6" "#242424" "#3a3a3a" "#2d2d2d".
Definition dracula : Colors.t :=
  Colors.Build "#282a36" "#f8f8f2" "#21222c" "#44475a" "#44475a".
Definition github : Colors.t :=
  Colors.Build "#ffffff" "#24292f" "#f6f8fa" "#d0d7de" "#f6f8fa".

(** What [colors[theme]] evaluates to.  [colors] is an object literal, so a
    name it does not own is looked up in [Object.prototype]: the result is one
    of the four tables, a member of [Object.prototype] (a function, or the
    prototype itself for [__proto__]), or [undefined]. *)
Inductive Member : Type :=
| Table (c : Colors.t)
| Inherited
| Missing.

Definition objectPrototype : list string :=
  [ "constructor"; "hasOwnProperty"; "isPrototypeOf"; "propertyIsEnumerable";
    "toLocaleString"; "toString"; "valueOf"; "__proto__";
    "__defineGetter__"; "__defineSetter__"; "__lookupGetter__";
    "__lookupSetter__" ].

Definition colors (theme : string) : Member :=
  if String.eqb theme "light" then Table light
  else if String.eqb theme "dark" then Table dark
  else if String.eqb theme "dracula" then Table dracula
  else if String.eqb theme "github" then Table github
  else if existsb (String.eqb theme) objectPrototype then Inherited
  else Missing.

(** [${c.bg}] and the like: a member of [Object.prototype] has none of the
    five properties, and the template prints [undefined]. *)
Definition field (f : Colors.t -> string) (c : Member) : string :=
  match c with
  | Table t => f t
  | Inherited | Missing => "undefined"
  end.

(** Lines 287-359: the stylesheet over the chosen colors. *)
Definition stylesheet (c : Member) : string :=
  "
* { box-sizing: border-box; margin: 0; padding: 0; }
body { font-family: -apple-system, BlinkMacSystemFont, 'Segoe UI', Roboto, sans-serif; background: " ++ field Colors.bg c ++ "; color: " ++ field Colors.text c ++ "; line-height: 1.6; }
.container { display: flex; min-height: 100vh; }

/* Sidebar */
.sidebar { width: 300px; background: " ++ field Colors.sidebar c ++ "; border-right: 1px solid " ++ field Colors.border c ++ "; padding: 20px; position: sticky; top: 0; height: 100vh; overflow-y: auto; }
.sidebar-header h1 { font-size: 1.2rem; margin: 10px 0 5px; }
.sidebar-header .version { font-size: 0.9rem; opacity: 0.7; }
.logo { max-height: 40px; margin-bottom: 10px; }

/* TOC */
.toc { margin-top: 20px; }
.toc h3 { font-size: 0.9rem; text-transform: uppercase; opacity: 0.7; margin-bottom: 10px; }
.toc ul { list-style: none; }
.toc li { margin: 5px 0; }
.toc a { color: " ++ field Colors.text c ++ "; text-decoration: none; display: block; padding: 5px; border-radius: 4px; }
.toc a:hover { background: " ++ field Colors.border c ++ "; }
.method-get { color: #10b981; }
.method-post { color: #3b82f6; }
.method-put { color: #f59e0b; }
.method-delete { color: #ef4444; }
.method-patch { color: #8b5cf6; }

/* Search */
.search { margin-top: 20px; }
.search input { width: 100%; padding: 10px; border: 1px solid " ++ field Colors.border c ++ "; border-radius: 6px; background: " ++ field Colors.bg c ++ "; color: " ++ field Colors.text c ++ "; }
#search-results { margin-top: 10px; max-height: 200px; overflow-y: auto; }
.search-result { padding: 10px; cursor: pointer; border-radius: 4px; }
.search-result:hover { background: " ++ field Colors.border c ++ "; }

/* Content */
.content { flex: 1; padding: 40px; max-width: 1200px; }
.header { margin-bottom: 40px; border-bottom: 1px solid " ++ field Colors.border c ++ "; padding-bottom: 20px; }
.header h1 { font-size: 2.5rem; margin-bottom: 10px; }

.endpoint-group { margin-bottom: 40px; }
.endpoint { background: " ++ field Colors.code c ++ "; border-radius: 8px; padding: 20px; margin-bottom: 20px; }
.endpoint-header { display: flex; align-items: center; gap: 15px; margin-bottom: 15px; }
.method { padding: 4px 12px; border-radius: 4px; font-weight: bold; font-size: 0.85rem; text-transform: uppercase; }
.method-get { background: #10b981; color: white; }
.method-post { background: #3b82f6; color: white; }
.method-put { background: #f59e0b; color: white; }
.method-delete { background: #ef4444; color: white; }
.method-patch { background: #8b5cf6; color: white; }
.path { font-family: monospace; background: " ++ field Colors.border c ++ "; padding: 4px 8px; border-radius: 4px; }
.summary { flex: 1; }

.params { width: 100%; border-collapse: collapse; margin: 15px 0; }
.params th, .params td { text-align: left; padding: 12px; border-bottom: 1px solid " ++ field Colors.border c ++ "; }
.params th { font-weight: 600; opacity: 0.7; }
.params code { background: " ++ field Colors.border c ++ "; padding: 2px 6px; border-radius: 3px; }

.response { margin: 15px 0; padding: 15px; border-radius: 6px; border-left: 4px solid; }
.response-success { border-color: #10b981; background: rgba(16, 185, 129, 0.1); }
.response-client { border-color: #f59e0b; background: rgba(245, 158, 11, 0.1); }
.response-server { border-color: #ef4444; background: rgba(239, 68, 68, 0.1); }

pre { background: " ++ field Colors.code c ++ "; padding: 15px; border-radius: 6px; overflow-x: auto; margin: 10px 0; }
code { font-family: 'Fira Code', monospace; font-size: 0.9rem; }

.try-it-out { margin-top: 15px; }
.try-it-out button { padding: 10px 20px; background: #3b82f6; color: white; border: none; border-radius: 6px; cursor: pointer; }
.try-it-out button:hover { background: #2563eb; }
.response-output { margin-top: 10px; }
.hidden { display: none; }

@media (max-width: 768px) {
  .container { flex-direction: column; }
  .sidebar { width: 100%; height: auto; position: relative; }
  .content { padding: 20px; }
}
".

(** Line 285, [colors[theme] || colors.light]: the tables and the members of
    [Object.prototype] are truthy. *)
Definition getCSS (theme : string) : string :=
  let c := match colors theme with
           | Missing => Table light
           | m => m
           end in
  stylesheet c.

(* ================================================================== *)
(** * The parser module: [parseSpec] and [validateSpec] *)

Module Validation.
Record t : Type := Build {
  valid : bool;
  errors : list string
}.
End Validation.

(** [errors.push(e)] when [cond] holds. *)
Definition pushIf (cond : bool) (e : string) (errors : list string) : list string :=
  if cond then (errors ++ [e])%list else errors.

Definition validateSpec (spec : JsVal) : result Validation.t :=
  openapi <- get spec "openapi" ;;
  let errors := [] in
  let errors :=
    pushIf (negb (truthy openapi) && negb (truthy (prop spec "swagger")))
           "Missing openapi or swagger version" errors in
  let errors := pushIf (negb (truthy (prop spec "info"))) "Missing info object" errors in
  let errors := pushIf (negb (truthy (prop spec "paths"))) "Missing paths object" errors in
  Ok (Validation.Build (Nat.eqb (List.length errors) 0) errors).

(** The outcome of loading a file: the decoded tree, or the exception of
    [readFileSync] (the file is missing or unreadable), or the exception of
    the decoder. *)
Inductive Loaded : Type :=
| Spec (spec : JsVal)
| InputError
| DecodeError.

Inductive Decoder : Type := YAML | JSON.

Section Loader.
(** The file system and the two decoders are outside the repository:
    [None] stands for the exception each of them can throw. *)
Variable readFileSync : string -> option string.
Variable yaml_parse : string -> option JsVal.
Variable JSON_parse : string -> option JsVal.

(** [inputPath.split('.').pop()]. *)
Definition extension (inputPath : string) : option string :=
  pop (split "." inputPath).

Definition isExt (ext : option string) (e : string) : bool :=
  match ext with
  | Some x => String.eqb x e
  | None => false
  end.

(** The test of line 75. *)
Definition decoderFor (inputPath : string) : Decoder :=
  let ext := extension inputPath in
  if isExt ext "yaml" || isExt ext "yml" then YAML else JSON.

Definition decode (d : Decoder) (content : string) : option JsVal :=
  match d with
  | YAML => yaml_parse content
  | JSON => JSON_parse content
  end.

Definition parseSpec (inputPath : string) : Loaded :=
  match readFileSync inputPath with
  | None => InputError
  | Some content =>
      match decode (decoderFor inputPath) content with
      | Some spec => Spec spec
      | None => DecodeError
      end
  end.
End Loader.

(* ================================================================== *)
(** * The command line, [unnamed/part_000]: [parseArgs] (lines 17-82) and [main] *)

Module Args.
Record t : Type := Build {
  inputs : list string;
  output : option string;    (* a text; undefined when the flag ends the line *)
  theme : option string;     (* a text; undefined when the flag ends the line *)
  logo : option string;      (* a text, or null or undefined *)
  favicon : option string;   (* a text, or null or undefined *)
  tryItOut : bool;
  search : bool;
  toc : bool;
  title : option string      (* a text, or null or undefined *)
}.
End Args.

Inductive Parse : Type :=
| Parsed (args : Args.t)
| ShowedHelp       (* showHelp(); process.exit(0) *)
| ShowedVersion.   (* the version line; process.exit(0) *)

Definition isOneOf (arg : string) (names : list string) : bool :=
  existsb (String.eqb arg) names.

Definition withOutput (r : Args.t) (v : option string) : Args.t :=
  Args.Build (Args.inputs r) v (Args.theme r) (Args.logo r) (Args.favicon r)
             (Args.tryItOut r) (Args.search r) (Args.toc r) (Args.title r).
Definition withTheme (r : Args.t) (v : option string) : Args.t :=
  Args.Build (Args.inputs r) (Args.output r) v (Args.logo r) (Args.favicon r)
             (Args.tryItOut r) (Args.search r) (Args.toc r) (Args.title r).
Definition withLogo (r : Args.t) (v : option string) : Args.t :=
  Args.Build (Args.inputs r) (Args.output r) (Args.theme r) v (Args.favicon r)
             (Args.tryItOut r) (Args.search r) (Args.toc r) (Args.title r).
Definition withFavicon (r : Args.t) (v : option string) : Args.t :=
  Args.Build (Args.inputs r) (Args.output r) (Args.theme r) (Args.logo r) v
             (Args.tryItOut r) (Args.search r) (Args.toc r) (Args.title r).
Definition withTitle (r : Args.t) (v : option string) : Args.t :=
  Args.Build (Args.inputs r) (Args.output r) (Args.theme r) (Args.logo r)
             (Args.favicon r) (Args.tryItOut r) (Args.search r) (Args.toc r) v.
Definition withTryItOut (r : Args.t) : Args.t :=
  Args.Build (Args.inputs r) (Args.output r) (Args.theme r) (Args.logo r)
             (Args.favicon r) true (Args.search r) (Args.toc r) (Args.title r).
Definition withoutSearch (r : Args.t) : Args.t :=
  Args.Build (Args.inputs r) (Args.output r) (Args.theme r) (Args.logo r)
             (Args.favicon r) (Args.tryItOut r) false (Args.toc r) (Args.title r).
Definition withoutToc (r : Args.t) : Args.t :=
  Args.Build (Args.inputs r) (Args.output r) (Args.theme r) (Args.logo r)
             (Args.favicon r) (Args.tryItOut r) (Args.search r) false (Args.title r).
Definition withInput (r : Args.t) (arg : string) : Args.t :=
  Args.Build (Args.inputs r ++ [arg])%list (Args.output r) (Args.theme r) (Args.logo r)
             (Args.favicon r) (Args.tryItOut r) (Args.search r) (Args.toc r)
             (Args.title r).

(** The options that take a value: the value is [args[i + 1]], undefined
    when the option is the last argument, and the loop steps over it. *)
Definition valueOptions : list string :=
  ["-o"; "--output"; "-t"; "--theme"; "--logo"; "--favicon"; "--title"].

Definition setValue (r : Args.t) (arg : string) (v : option string) : Args.t :=
  if isOneOf arg ["-o"; "--output"] then withOutput r v
  else if isOneOf arg ["-t"; "--theme"] then withTheme r v
  else if String.eqb arg "--logo" then withLogo r v
  else if String.eqb arg "--favicon" then withFavicon r v
  else withTitle r v.

(** The loop of [parseArgs] from the state [result] over the arguments that
    are left. *)
Fixpoint parseLoop (result : Args.t) (args : list string) : Parse :=
  match args with
  | [] => Parsed result
  | arg :: rest =>
      if isOneOf arg valueOptions then
        match rest with
        | [] => Parsed (setValue result arg None)
        | nextArg :: rest' => parseLoop (setValue result arg (Some nextArg)) rest'
        end
      else if String.eqb arg "--try-it-out" then parseLoop (withTryItOut result) rest
      else if String.eqb arg "--no-search" then parseLoop (withoutSearch result) rest
      else if String.eqb arg "--no-toc" then parseLoop (withoutToc result) rest
      else if isOneOf arg ["-h"; "--help"] then ShowedHelp
      else if isOneOf arg ["-v"; "--version"] then ShowedVersion
      else if negb (startsWith arg "-") then parseLoop (withInput result arg) rest
      else parseLoop result rest
  end.

(** The options and flags of the command line; each starts with a dash. *)
Definition knownFlags : list string :=
  (valueOptions ++ ["--try-it-out"; "--no-search"; "--no-toc";
                    "-h"; "--help"; "-v"; "--version"])%list.

(** What [parseArgs] leaves as it was unless the flag that sets it is among
    the arguments. *)
Definition keptUnless (r a : Args.t) (args : list string) : Prop :=
  (Args.tryItOut a = Args.tryItOut r \/ In "--try-it-out" args) /\
  (Args.search a = Args.search r \/ In "--no-search" args) /\
  (Args.toc a = Args.toc r \/ In "--no-toc" args) /\
  (Args.output a = Args.output r \/ In "-o" args \/ In "--output" args) /\
  (Args.theme a = Args.theme r \/ In "-t" args \/ In "--theme" args) /\
  (Args.logo a = Args.logo r \/ In "--logo" args) /\
  (Args.favicon a = Args.favicon r \/ In "--favicon" args) /\
  (Args.title a = Args.title r \/ In "--title" args).

Definition defaultArgs : Args.t :=
  Args.Build [] (Some "docs/") (Some "light") None None false true true None.

Definition parseArgs (args : list string) : Parse := parseLoop defaultArgs args.

(** The options that [main] hands to [generateDocs] for one input. *)
Module DocsOptions.
Record t : Type := Build {
  input : string;
  output : string;
  theme : option string;     (* a name, or undefined *)
  logo : option string;      (* a path, or null *)
  favicon : option string;   (* a path, or null *)
  tryItOut : bool;
  search : bool;
  toc : bool;
  title : option string      (* a text, or null or undefined *)
}.
End DocsOptions.

(** How a call of [generateDocs] ends, with the state of the world it
    leaves. *)
Inductive Outcome (World : Type) : Type :=
| Returned (w : World)
| Threw (w : World).
Arguments Returned {World} w.
Arguments Threw {World} w.

Section CommandLine.
(** [main] is studied for what it does with [generateDocs], whatever that
    does: the world is the state that [generateDocs] reads and changes (the
    file system), and [generateDocs] is a function from the world and its
    options to an outcome.  What [main] prints is not part of the model.
    [path.resolve] is outside the repository. *)
Variable World : Type.
Variable resolve : string -> string.
Variable generateDocs : World -> DocsOptions.t -> Outcome World.

(** Lines 131-141: the argument of [generateDocs] for one input;
    [resolve(args.output)] throws on undefined. *)
Definition docsOptions (args : Args.t) (input : string) : result DocsOptions.t :=
  match Args.output args with
  | None => TypeError
  | Some output =>
      Ok (DocsOptions.Build
            (resolve input) (resolve output) (Args.theme args)
            (option_map resolve (given (Args.logo args)))
            (option_map resolve (given (Args.favicon args)))
            (Args.tryItOut args) (Args.search args) (Args.toc args)
            (Args.title args))
  end.

(** Lines 129-143, the loop of [main] over the inputs, inside its [try]:
    the exit code and the world that is left.  The [catch] ends the process
    with code 1. *)
Fixpoint runInputs (w : World) (args : Args.t) (inputs : list string) : Z * World :=
  match inputs with
  | [] => (0%Z, w)
  | input :: rest =>
      match docsOptions args input with
      | TypeError => (1%Z, w)
      | Ok options =>
          match generateDocs w options with
          | Threw w' => (1%Z, w')
          | Returned w' => runInputs w' args rest
          end
      end
  end.

(** Lines 116-158. *)
Definition main (w : World) (argv : list string) : Z * World :=
  match parseArgs argv with
  | ShowedHelp | ShowedVersion => (0%Z, w)
  | Parsed args =>
      match Args.inputs args with
      | [] => (1%Z, w)
      | inputs => runInputs w args inputs
      end
  end.
End CommandLine.

(* ================================================================== *)
(** * Vocabulary of the specification *)

(** The character an anchor has where the path has [c]: [c] lowercased when
    that is in [a-z0-9], a dash otherwise. *)
Definition anchorChar (c : ascii) : ascii :=
  let l := lowerChar c in
  if isSlugChar l then l else "-"%char.

Definition firstChar (s : string) : option ascii :=
  match s with
  | EmptyString => None
  | String c _ => Some c
  end.

(** The final extension segment of a path: what follows its last dot, and the
    whole path when it has no dot. *)
Fixpoint finalSegment (s : string) : string :=
  match s with
  | EmptyString => EmptyString
  | String a r =>
      if occurs "." r then finalSegment r
      else if Ascii.eqb a "." then r
      else String a r
  end.

(** The (path, method, operation) triples of a paths mapping, in the order of
    its keys. *)
Definition operationsOf (ps : list (string * JsVal)) : list (string * string * JsVal) :=
  flat_map
    (fun '(path, methods) =>
       match methods with
       | JObj ms => map (fun '(method, details) => (path, method, details)) ms
       | _ => []
       end)
    ps.

(** A paths mapping of the shape of the data model: every path maps to a
    mapping from methods to operations, and an operation is a value (neither
    null nor undefined). *)
Definition operationsShaped (ms : list (string * JsVal)) : Prop :=
  Forall (fun m => nullish (snd m) = false) ms.

Definition pathsShaped (ps : list (string * JsVal)) : Prop :=
  Forall (fun p => exists ms, snd p = JObj ms /\ operationsShaped ms) ps.

(** Keys are pairwise distinct, as they are in a JavaScript object. *)
Definition distinctKeys (ps : list (string * JsVal)) : Prop :=
  NoDup (map fst ps) /\
  Forall (fun p => forall ms, snd p = JObj ms -> NoDup (map fst ms)) ps.

Definition pairOf (e : SearchEntry.t) : string * string :=
  (SearchEntry.path e, SearchEntry.method e).

(** The entry the specification gives an operation: the title is the summary
    when there is one, else the description when there is one, else the path;
    the description is the description when there is one, else the empty
    string; the slug is the anchor of the path, a dash and the method.  A
    field is there when its value is truthy, which is what [||] tests: an
    empty text counts as none. *)
Definition entryOf (op : string * string * JsVal) : SearchEntry.t :=
  let '(path, method, details) := op in
  let summary := prop details "summary" in
  let description := prop details "description" in
  SearchEntry.Build
    path
    method
    (if truthy summary then summary
     else if truthy description then description
     else JStr path)
    (if truthy description then description else JStr "")
    (slugify path ++ "-" ++ method).

Definition pairOfOperation (op : string * string * JsVal) : string * string :=
  let '(path, method, _) := op in (path, method).

(** The escaped form of a character and of a text. *)
Definition entity (c : ascii) : string :=
  if Ascii.eqb c "&" then "&amp;"
  else if Ascii.eqb c "<" then "&lt;"
  else if Ascii.eqb c ">" then "&gt;"
  else if Ascii.eqb c dquote then "&quot;"
  else if Ascii.eqb c "'" then "&#039;"
  else String c "".

Fixpoint escapedForm (s : string) : string :=
  match s with
  | EmptyString => EmptyString
  | String a r => entity a ++ escapedForm r
  end.

(** The class the specification gives a status code, by its first
    character. *)
Definition classOfStatus (code : string) : string :=
  match firstChar code with
  | Some "2"%char => "success"
  | Some "4"%char => "client"
  | _ => "server"
  end.

(** How the block of a response opens: its class, then its status code. *)
Definition responseOpening (code : string) : string :=
  tpl "<div class=~response response-" ++ classOfStatus code ++ tpl "~>
                    <h4>" ++ code ++ " ".

Definition isOk {A} (r : result A) : bool :=
  match r with
  | Ok _ => true
  | TypeError => false
  end.


(** What the page shows for a value: nothing for a falsy value, and
    otherwise the escaped form of its text. *)
Definition shownAs (v : JsVal) (text : string) : Prop :=
  if truthy v then exists t, toStr v = Ok t /\ text = escapedForm t
  else text = "".

(** The head of the parameter table, which names its five columns, and a row
    of the table with its five cells in the order of the columns. *)
Definition parameterColumns : string :=
  "<th>Name</th>
                        <th>Type</th>
                        <th>In</th>
                        <th>Required</th>
                        <th>Description</th>".

Definition parameterCells (name type in_ required description : string) : string :=
  "<tr>
                          <td><code>" ++ name ++ "</code></td>
                          <td>" ++ type ++ "</td>
                          <td>" ++ in_ ++ "</td>
                          <td>" ++ required ++ "</td>
                          <td>" ++ description ++ "</td>
                        </tr>".



(** The schema of the JSON media type of an operation's request body. *)
Definition jsonSchemaOf (details : JsVal) : JsVal :=
  optGet (optGet (optGet (prop details "requestBody") "content") "application/json") "schema".

(** The request-body code block around its text. *)
Definition requestBodyCode (text : string) : string :=
  tpl "
                  <h3>Request Body</h3>
                  <pre><code class=~language-json~>" ++ text ++ "</code></pre>
                ".



(* ================================================================== *)
(** * Vocabulary for texts and anchors *)

Fixpoint allChars (p : ascii -> bool) (s : string) : bool :=
  match s with
  | EmptyString => true
  | String a r => p a && allChars p r
  end.

(** A text is plain when it has none of the five characters that
    [escapeHtml] replaces. *)
Definition isSpecial (c : ascii) : bool :=
  Ascii.eqb c "&" || Ascii.eqb c "<" || Ascii.eqb c ">" ||
  Ascii.eqb c dquote || Ascii.eqb c "'".

Definition plain (s : string) : bool := allChars (fun c => negb (isSpecial c)) s.

(** The names of the five entities, after the ampersand. *)
Definition entityNames : list string := ["amp;"; "lt;"; "gt;"; "quot;"; "#039;"].

(** Reading the five entities back, as a browser does. *)
Fixpoint unescapeHtml (s : string) : string :=
  match s with
  | String "&" (String "a" (String "m" (String "p" (String ";" r)))) =>
      String "&" (unescapeHtml r)
  | String "&" (String "l" (String "t" (String ";" r))) =>
      String "<" (unescapeHtml r)
  | String "&" (String "g" (String "t" (String ";" r))) =>
      String ">" (unescapeHtml r)
  | String "&" (String "q" (String "u" (String "o" (String "t" (String ";" r))))) =>
      String dquote (unescapeHtml r)
  | String "&" (String "#" (String "0" (String "3" (String "9" (String ";" r))))) =>
      String "'" (unescapeHtml r)
  | String c r => String c (unescapeHtml r)
  | EmptyString => EmptyString
  end.

(** The opening tag of the block of a method, and its link in the table of
    contents. *)
Definition methodBlockTag (slug method : string) : string :=
  tpl "<div id=~" ++ slug ++ tpl "~ class=~endpoint method-" ++ method ++ tpl "~>".

Definition tocLink (slug method : string) : string :=
  tpl "<a href=~#" ++ slug ++ tpl "~>" ++ toUpperCase method ++ "</a>".

(** The number of occurrences of a character. *)
Fixpoint count (c : ascii) (s : string) : nat :=
  match s with
  | EmptyString => 0
  | String a r => (if Ascii.eqb a c then 1 else 0) + count c r
  end.

(** [l1] is [l2] with some elements left out, the order kept. *)
Inductive Subsequence {A} : list A -> list A -> Prop :=
| sub_nil : Subsequence [] []
| sub_skip x l1 l2 : Subsequence l1 l2 -> Subsequence l1 (x :: l2)
| sub_keep x l1 l2 : Subsequence l1 l2 -> Subsequence (x :: l1) (x :: l2).

(* ================================================================== *)
(** * Vocabulary for the documents that can be indexed *)

(** The entries of a value that has entries: [Object.entries] where it
    returns, nothing on null and undefined. *)
Definition ownEntries (v : JsVal) : list (string * JsVal) :=
  match entries v with
  | Ok l => l
  | TypeError => []
  end.

(** The entries of [spec.paths || {}]. *)
Definition pathEntries (spec : JsVal) : list (string * JsVal) :=
  ownEntries (orElse (prop spec "paths") (JObj [])).

Definition isValue (v : JsVal) : bool := negb (nullish v).

(** What the search index needs of a document: the document is a value, and
    no path and no operation is null or undefined. *)
Definition pathIndexable (methods : JsVal) : bool :=
  isValue methods && forallb (fun m => isValue (snd m)) (ownEntries methods).

Definition indexable (spec : JsVal) : bool :=
  isValue spec && forallb (fun p => pathIndexable (snd p)) (pathEntries spec).

(* ================================================================== *)
(** * Sample documents *)

Definition defaults (tryItOut : bool) : Options.t :=
  Options.Build "light" None None tryItOut true true (JStr "My API").

(** [{info: {title: "My API"}, paths: {"/users/<id>": {get: {}}}}] *)
Definition bracketSpec : JsVal :=
  JObj [ ("info", JObj [("title", JStr "My API")]);
         ("paths", JObj [("/users/<id>", JObj [("get", JObj [])])]) ].

(** An operation whose request body has a media type other than JSON. *)
Definition plainTextUpload : JsVal :=
  JObj [ ("summary", JStr "Upload");
         ("requestBody",
          JObj [("content",
                 JObj [("text/plain",
                        JObj [("schema", JObj [("type", JStr "string")])])])]) ].

Definition uploadSpec : JsVal :=
  JObj [ ("info", JObj [("title", JStr "My API")]);
         ("paths", JObj [("/upload", JObj [("post", plainTextUpload)])]) ].

(** The end-to-end scenario of the specification. *)
Definition usersPaths : list (string * JsVal) :=
  [("/users",
    JObj [("get",
           JObj [("summary", JStr "List users");
                 ("responses",
                  JObj [("200", JObj [("description", JStr "Success")])])])])].

Definition usersSpec : JsVal :=
  JObj [ ("openapi", JStr "3.0.0");
         ("info", JObj [("title", JStr "My API"); ("version", JStr "1.0.0")]);
         ("paths", JObj usersPaths) ].

(** A disk with one YAML file, and decoders that know the two contents the
    samples use. *)
Definition sampleDisk (p : string) : option string :=
  if String.eqb p "docs/api.v2.yml" then Some "paths: {}" else None.

Definition sampleYaml (content : string) : option JsVal :=
  if String.eqb content "paths: {}" then Some (JObj [("paths", JObj [])]) else None.

Definition sampleJson (content : string) : option JsVal :=
  if String.eqb content "{}" then Some (JObj []) else None.

Definition idParam : JsVal :=
  JObj [ ("name", JStr "id"); ("in", JStr "path"); ("required", JBool true) ].

(** An operation with one parameter and two responses. *)
Definition getUser : JsVal :=
  JObj [ ("summary", JStr "Get a user");
         ("parameters", JArr [idParam]);
         ("responses",
          JObj [ ("200", JObj [("description", JStr "Found")]);
                 ("404", JObj [("description", JStr "No such user")]) ]) ].

(** A contact whose link breaks out of its attribute. *)
Definition quotedContact : JsVal :=
  JObj [ ("info",
          JObj [ ("title", JStr "My API");
                 ("contact", JObj [("url", JStr (tpl "~><script>"))]) ]) ].

(** A world that is the list of the inputs generated so far, the latest
    first, and a [generateDocs] that throws on one input. *)
Definition sampleGenerateDocs (w : list string) (options : DocsOptions.t)
  : Outcome (list string) :=
  if String.eqb (DocsOptions.input options) "broken.json" then Threw w
  else Returned (DocsOptions.input options :: w).

(* ================================================================== *)
(** * Strings: basic facts *)

Lemma append_assoc (a b c : string) : (a ++ b) ++ c = a ++ b ++ c.
Proof. induction a as [|x a IH]; simpl; [reflexivity | now rewrite IH]. Qed.

Lemma prefix_split (p s : string) :
  String.prefix p s = true -> exists post, s = p ++ post.
Proof.
  revert s; induction p as [|a p IH]; intros s H.
  - now exists s.
  - destruct s as [|b s]; simpl in H; [discriminate|].
    destruct (ascii_dec a b) as [->|]; [|discriminate].
    destruct (IH _ H) as [post ->]. now exists post.
Qed.

Lemma includes_Infix (hay needle : string) :
  includes hay needle = true -> Infix_ needle hay.
Proof.
  induction hay as [|a hay IH]; intros H.
  - cbn [includes] in H. rewrite orb_false_r in H.
    destruct (prefix_split _ _ H) as [post E]. exists "", post. exact E.
  - cbn [includes] in H. apply orb_true_iff in H as [H|H].
    + destruct (prefix_split _ _ H) as [post E]. exists "", post. exact E.
    + destruct (IH H) as (pre & post & E).
      exists (String a pre), post. simpl. now rewrite E.
Qed.

Lemma Infix_here (s post : string) : Infix_ s (s ++ post).
Proof. now exists "", post. Qed.

Lemma Infix_app_r (s a x : string) : Infix_ s x -> Infix_ s (a ++ x).
Proof.
  intros (pre & post & ->). exists (a ++ pre), post.
  now rewrite append_assoc.
Qed.

(** Finds a block among the pieces a template concatenates. *)
Ltac find_infix := repeat first [apply Infix_here | apply Infix_app_r].

(** Settles an occurrence in a closed text by evaluation. *)
Ltac infix_by_evaluation := apply includes_Infix; vm_compute; reflexivity.



Lemma mapString_compose (f g : ascii -> ascii) (s : string) :
  mapString f (mapString g s) = mapString (fun c => f (g c)) s.
Proof. induction s as [|a s IH]; simpl; [reflexivity | now rewrite IH]. Qed.


Lemma Infix_app_l (s x a : string) : Infix_ s x -> Infix_ s (x ++ a).
Proof.
  intros (pre & post & ->). exists pre, (post ++ a).
  now rewrite !append_assoc.
Qed.

Lemma Infix_trans (a b c : string) : Infix_ a b -> Infix_ b c -> Infix_ a c.
Proof.
  intros (pre & post & ->) (pre' & post' & ->).
  exists (pre' ++ pre), (post ++ post'). now rewrite !append_assoc.
Qed.

Lemma In_join (x : string) (l : list string) : In x l -> Infix_ x (join l).
Proof.
  induction l as [|y l IH]; [intros []|].
  intros [-> | H]; cbn [join].
  - apply Infix_here.
  - apply Infix_app_r, IH, H.
Qed.

(* ================================================================== *)
(** * The result monad: basic facts *)

Lemma Ok_inj {A} (a b : A) : Ok a = Ok b -> a = b.
Proof. now intros [= ->]. Qed.

Lemma bind_Ok {A B} (r : result A) (k : A -> result B) (b : B) :
  bind r k = Ok b -> exists a, r = Ok a /\ k a = Ok b.
Proof. destruct r as [a|]; simpl; [eauto | discriminate]. Qed.

(** From a successful run of a block to the text it returned. *)
Ltac returned H :=
  repeat (let x := fresh "x" in apply bind_Ok in H as (x & _ & H));
  apply Ok_inj in H.

Lemma truthy_not_nullish (v : JsVal) : truthy v = true -> nullish v = false.
Proof. destruct v; simpl; congruence. Qed.

Lemma entries_total (v : JsVal) :
  nullish v = false -> exists l, entries v = Ok l.
Proof. destruct v; simpl; intros H; try discriminate; eauto. Qed.

Lemma get_value (v : JsVal) (k : string) :
  nullish v = false -> get v k = Ok (prop v k).
Proof. unfold get. now intros ->. Qed.

Lemma optGet_value (v : JsVal) (k : string) :
  nullish v = false -> optGet v k = prop v k.
Proof. unfold optGet. now intros ->. Qed.

(** Names the result of the first step of a run that returned. *)
Ltac unbind H x Hx := apply bind_Ok in H as (x & Hx & H).



(** What [map] returns holds the result of the callback at each element. *)
Lemma mapM_In {A B} (f : A -> result B) (l : list A) (bs : list B) (a : A) :
  mapM f l = Ok bs -> In a l -> exists b, f a = Ok b /\ In b bs.
Proof.
  revert bs; induction l as [|x l IH]; intros bs H Hin; [destruct Hin|].
  cbn [mapM] in H. unbind H b Hb. unbind H bs' Hbs. apply Ok_inj in H. subst bs.
  destruct Hin as [-> | Hin].
  - exists b. split; [exact Hb | now left].
  - destruct (IH _ Hbs Hin) as (b' & Hb' & Hin'). exists b'. split; [exact Hb' | now right].
Qed.

Lemma entriesOrEmpty_mapping (ps : list (string * JsVal)) :
  entriesOrEmpty (JObj ps) = Ok ps.
Proof. reflexivity. Qed.



(* ================================================================== *)
(** * Escaping (C1) *)

Lemma replaceAll_app (c : ascii) (by_ x y : string) :
  replaceAll c by_ (x ++ y) = replaceAll c by_ x ++ replaceAll c by_ y.
Proof.
  induction x as [|a x IH]; [reflexivity|].
  cbn [append replaceAll]. destruct (Ascii.eqb a c).
  - now rewrite IH, append_assoc.
  - cbn [append]. now rewrite IH.
Qed.

Lemma escapeHtmlStr_char (a : ascii) : escapeHtmlStr (String a "") = entity a.
Proof. destruct a as [[] [] [] [] [] [] [] []]; reflexivity. Qed.

Lemma escapeHtmlStr_app (x y : string) :
  escapeHtmlStr (x ++ y) = escapeHtmlStr x ++ escapeHtmlStr y.
Proof. unfold escapeHtmlStr. now rewrite !replaceAll_app. Qed.

(** The five passes amount to one pass that replaces each character by its
    entity: no pass touches what an earlier pass wrote, apart from the
    ampersand pass, which runs first. *)
Lemma escapeHtmlStr_escapedForm (s : string) : escapeHtmlStr s = escapedForm s.
Proof.
  induction s as [|a r IH]; [reflexivity|].
  change (String a r) with (String a "" ++ r).
  rewrite escapeHtmlStr_app, escapeHtmlStr_char, IH. reflexivity.
Qed.

Lemma occurs_app (c : ascii) (x y : string) :
  occurs c (x ++ y) = occurs c x || occurs c y.
Proof.
  induction x as [|a x IH]; [reflexivity|].
  cbn [append occurs]. now rewrite IH, orb_assoc.
Qed.

Lemma entity_safe (a : ascii) :
  occurs "<" (entity a) = false /\ occurs ">" (entity a) = false /\
  occurs dquote (entity a) = false /\ occurs "'" (entity a) = false.
Proof. destruct a as [[] [] [] [] [] [] [] []]; repeat split. Qed.


Lemma escapedForm_safe (s : string) :
  occurs "<" (escapedForm s) = false /\ occurs ">" (escapedForm s) = false /\
  occurs dquote (escapedForm s) = false /\ occurs "'" (escapedForm s) = false.
Proof.
  induction s as [|a r (H1 & H2 & H3 & H4)]; [repeat split|].
  cbn [escapedForm]. rewrite !occurs_app, H1, H2, H3, H4.
  destruct (entity_safe a) as (E1 & E2 & E3 & E4).
  now rewrite E1, E2, E3, E4.
Qed.

(** [escapeHtml] on a text: the escaped form of the text. *)
Lemma escapeHtml_text (s : string) : escapeHtml (JStr s) = Ok (escapedForm s).
Proof.
  unfold escapeHtml. cbn [truthy toStr].
  destruct (String.eqb_spec s "") as [->|_]; [reflexivity|].
  cbn [negb bind]. now rewrite escapeHtmlStr_escapedForm.
Qed.

(** [escapeHtml] returns exactly what the page is to show for a value. *)
Lemma escapeHtml_shownAs (v : JsVal) (text : string) :
  escapeHtml v = Ok text <-> shownAs v text.
Proof.
  unfold escapeHtml, shownAs. destruct (truthy v); cbn [negb].
  - split.
    + intros H. unbind H t Ht. apply Ok_inj in H. exists t.
      split; [exact Ht | now rewrite <- escapeHtmlStr_escapedForm].
    + intros (t & Ht & ->). rewrite Ht. cbn [bind].
      now rewrite escapeHtmlStr_escapedForm.
  - split; [intros H; now apply Ok_inj in H | now intros ->].
Qed.

(** [escapeHtml(v || d)] for a default text [d]. *)
Lemma escapeHtml_orElse (v : JsVal) (d text : string) :
  shownAs v text ->
  escapeHtml (orElse v (JStr d)) = Ok (if truthy v then text else escapedForm d).
Proof.
  intros H. unfold orElse. destruct (truthy v) eqn:Hv.
  - apply escapeHtml_shownAs. unfold shownAs in *. now rewrite Hv in *.
  - apply escapeHtml_text.
Qed.

(** What [escapeHtml] returns has no angle bracket and no quote. *)
Lemma escapeHtml_safe (v : JsVal) (text : string) :
  escapeHtml v = Ok text ->
  occurs "<" text = false /\ occurs ">" text = false /\
  occurs dquote text = false /\ occurs "'" text = false.
Proof.
  intros H. apply escapeHtml_shownAs in H. unfold shownAs in H.
  destruct (truthy v); [|subst text; repeat split].
  destruct H as (t & _ & ->). apply escapedForm_safe.
Qed.



(** [JSON.stringify] returns a text on every value but [undefined], and what
    it returns can always be escaped. *)
Lemma stringify_value (indent : string) (v : JsVal) :
  v <> JUndefined -> exists text, stringify indent v = Some text.
Proof.
  destruct v as [| |[]|z safe|s|l|ps]; intros Hv; try (now destruct Hv);
    cbn [stringify]; eauto;
    match goal with
    | |- context [match ?x with [] => _ | _ :: _ => _ end] => destruct x; eauto
    end.
Qed.

Lemma JSON_stringify_text (v : JsVal) :
  truthy v = true -> exists text, JSON_stringify v = JStr text.
Proof.
  intros Hv. unfold JSON_stringify.
  destruct (stringify_value "" v) as [text ->]; [now intros -> | eauto].
Qed.

Lemma escapeHtml_stringify (v : JsVal) :
  exists text, escapeHtml (JSON_stringify v) = Ok text.
Proof.
  unfold JSON_stringify. destruct (stringify "" v) as [s|].
  - rewrite escapeHtml_text. eauto.
  - now exists "".
Qed.

(** C1, at the path [/users/<id>] with Try It Out enabled.  The heading and
    the path cell carry the escaped path, as [escapeHtml] gives it, but the
    button of the Try It Out block (line 205) carries the path as it is.
    With Try It Out disabled the path occurs in its escaped form only. *)
Theorem tryItOut_embeds_raw_path :
  escapeHtml (JStr "/users/<id>") = Ok "/users/&lt;id&gt;" /\
  (exists html,
      generateHTML bracketSpec (defaults true) = Ok html /\
      Infix_ (tpl "<button onclick=~tryItOut('get', '/users/<id>')~>") html /\
      Infix_ "<h2>/users/&lt;id&gt;</h2>" html) /\
  (exists html,
      generateHTML bracketSpec (defaults false) = Ok html /\
      includes html "/users/<id>" = false /\
      Infix_ "<h2>/users/&lt;id&gt;</h2>" html).
Proof.
  split; [reflexivity|]. split.
  - eexists. split; [vm_compute; reflexivity|].
    split; infix_by_evaluation.
  - eexists. split; [vm_compute; reflexivity|].
    split; [vm_compute; reflexivity|].
    infix_by_evaluation.
Qed.

(* ================================================================== *)
(** * The search index (C2) *)

Lemma searchEntry_shaped (path method : string) (details : JsVal) :
  nullish details = false ->
  searchEntry path (method, details) = Ok (entryOf (path, method, details)).
Proof.
  intros Hd. unfold searchEntry, entryOf. rewrite (get_value _ _ Hd). cbn [bind].
  unfold orElse.
  destruct (truthy (prop details "summary")) eqn:Hs; [now rewrite Hs|].
  cbv iota. destruct (truthy (prop details "description")); reflexivity.
Qed.

Lemma pushMethods_shaped (path : string) (ms : list (string * JsVal)) :
  operationsShaped ms ->
  forall acc,
    pushMethods path ms acc =
      Ok (acc ++ map entryOf (map (fun '(method, details) => (path, method, details)) ms))%list.
Proof.
  induction 1 as [|[method details] ms Hd _ IH]; intros acc.
  - cbn. now rewrite app_nil_r.
  - cbn [pushMethods map]. cbn [snd] in Hd.
    rewrite (searchEntry_shaped path method details Hd). cbn [bind].
    rewrite IH, <- app_assoc. reflexivity.
Qed.

Lemma pushPaths_shaped (ps : list (string * JsVal)) :
  pathsShaped ps ->
  forall acc, pushPaths ps acc = Ok (acc ++ map entryOf (operationsOf ps))%list.
Proof.
  induction 1 as [|[path methods] ps (ms & Hm & Hms) _ IH]; intros acc.
  - cbn. now rewrite app_nil_r.
  - cbn [snd] in Hm. subst methods.
    cbn [pushPaths entries bind].
    rewrite (pushMethods_shaped path ms Hms). cbn [bind].
    rewrite IH. unfold operationsOf. cbn [flat_map].
    rewrite map_app, <- app_assoc. reflexivity.
Qed.

Lemma pairOf_entryOf (op : string * string * JsVal) :
  pairOf (entryOf op) = pairOfOperation op.
Proof. now destruct op as [[path method] details]. Qed.

Lemma operation_pairs_in (ps : list (string * JsVal)) (path method : string) :
  In (path, method) (map pairOfOperation (operationsOf ps)) <->
  exists ms, In (path, JObj ms) ps /\ In method (map fst ms).
Proof.
  unfold operationsOf. rewrite in_map_iff. split.
  - intros ([[p m] d] & E & Hin). cbn in E. injection E as -> ->.
    apply in_flat_map in Hin as ([p v] & Hp & Hin).
    destruct v; try contradiction.
    apply in_map_iff in Hin as ([m d'] & E & Hin). injection E as -> -> ->.
    exists props. split; [exact Hp|].
    apply in_map_iff. now exists (method, d).
  - intros (ms & Hp & Hm). apply in_map_iff in Hm as ([m d] & E & Hin).
    cbn in E. subst m. exists (path, method, d). split; [reflexivity|].
    apply in_flat_map. exists (path, JObj ms). split; [exact Hp|].
    apply in_map_iff. now exists (method, d).
Qed.

Lemma NoDup_map_pair (path : string) (l : list string) :
  NoDup l -> NoDup (map (pair path) l).
Proof.
  induction 1 as [|m l Hn _ IH]; cbn; constructor; [|exact IH].
  intros Hin. apply in_map_iff in Hin as (m' & E & Hin).
  injection E as ->. now apply Hn.
Qed.

Lemma operation_pairs_NoDup (ps : list (string * JsVal)) :
  distinctKeys ps -> NoDup (map pairOfOperation (operationsOf ps)).
Proof.
  intros [Hk Hm]. induction ps as [|[path methods] ps IH]; [constructor|].
  cbn [map fst] in Hk. apply NoDup_cons_iff in Hk as [Hfresh Hk].
  apply Forall_cons_iff in Hm as [Hhere Hm]. cbn [snd] in Hhere.
  specialize (IH Hk Hm).
  unfold operationsOf in *. cbn [flat_map]. rewrite map_app.
  apply NoDup_app; [| exact IH |].
  - destruct methods; try constructor.
    rewrite map_map.
    rewrite (map_ext _ (fun m => pair path (fst m))) by (now intros [m d]).
    rewrite <- map_map. apply NoDup_map_pair. now apply Hhere.
  - intros [p m] Hin Hrest.
    assert (p = path) as ->.
    { destruct methods; try contradiction.
      apply in_map_iff in Hin as ([[p' m'] d'] & E & Hin). cbn in E.
      injection E as -> ->.
      apply in_map_iff in Hin as ([m'' d''] & E & _). now injection E as ->. }
    apply (operation_pairs_in ps path m) in Hrest as (ms & Hp & _).
    apply Hfresh. apply in_map_iff. now exists (path, JObj ms).
Qed.

(** C2.  For a document whose paths mapping has the shape of the data model,
    [generateSearchIndex] returns an index with one entry per operation, in
    the order of the keys: the (path, method) pairs of the index are those of
    the mapping, each once, and each entry has the title, description and
    slug of [entryOf]. *)
Theorem search_index_one_entry_per_operation :
  forall (spec : JsVal) (ps : list (string * JsVal)),
    nullish spec = false ->
    prop spec "paths" = JObj ps ->
    pathsShaped ps ->
    distinctKeys ps ->
    exists index,
      generateSearchIndex spec = Ok index /\
      index = map entryOf (operationsOf ps) /\
      map pairOf index = map pairOfOperation (operationsOf ps) /\
      NoDup (map pairOf index) /\
      (forall path method,
          In (path, method) (map pairOf index) <->
          exists ms, In (path, JObj ms) ps /\ In method (map fst ms)).
Proof.
  intros spec ps Hs Hp Hshape Hkeys.
  assert (Hpairs : map pairOf (map entryOf (operationsOf ps))
                   = map pairOfOperation (operationsOf ps)).
  { rewrite map_map. apply map_ext. intros op. apply pairOf_entryOf. }
  exists (map entryOf (operationsOf ps)).
  split; [|split; [reflexivity|split; [exact Hpairs|]]].
  - unfold generateSearchIndex. rewrite (get_value _ _ Hs), Hp.
    cbn [bind entriesOrEmpty orElse truthy entries].
    now rewrite (pushPaths_shaped ps Hshape).
  - rewrite Hpairs. split.
    + now apply operation_pairs_NoDup.
    + intros path method. apply operation_pairs_in.
Qed.

Lemma search_index_one_entry_per_operation_witness :
  nullish usersSpec = false /\
  pathsShaped usersPaths /\
  distinctKeys usersPaths /\
  exists index,
    generateSearchIndex usersSpec = Ok index /\
    map pairOf index = [("/users", "get")] /\
    map SearchEntry.title index = [JStr "List users"].
Proof.
  assert (Hshape : pathsShaped usersPaths).
  { repeat constructor. eexists. split; [reflexivity|]. repeat constructor. }
  assert (Hkeys : distinctKeys usersPaths).
  { split.
    - repeat constructor. simpl. tauto.
    - repeat constructor. cbn [snd]. intros ms [= <-]. repeat constructor. simpl. tauto. }
  split; [reflexivity|]. split; [exact Hshape|]. split; [exact Hkeys|].
  destruct (search_index_one_entry_per_operation usersSpec usersPaths
              eq_refl eq_refl Hshape Hkeys) as (index & Hi & E & Hp & _).
  exists index. split; [exact Hi|]. split; [exact Hp|].
  rewrite E. reflexivity.
Defined.

(* ================================================================== *)
(** * Where the block of an operation is in the document *)

Lemma document_has_endpoints (spec : JsVal) (options : Options.t) (html : string) :
  generateHTML spec options = Ok html ->
  exists section,
    endpointsSection spec (Options.tryItOut options) = Ok section /\
    Infix_ section html.
Proof.
  destruct options as [theme logo favicon tryItOut search toc title].
  intros H. unfold generateHTML in H.
  unbind H info Hinfo. unbind H titleText Ht. unbind H infoTitle Hi.
  unbind H version Hv. unbind H description Hd. unbind H contact Hc.
  unbind H tocHtml Htoc. unbind H endpoints He. unbind H schemas Hs.
  apply Ok_inj in H. subst html.
  exists endpoints. split; [exact He | find_infix].
Qed.

Lemma endpoints_has_path (spec : JsVal) (tryItOut : bool) (section : string)
      (ps : list (string * JsVal)) (path : string) (methods : JsVal) :
  endpointsSection spec tryItOut = Ok section ->
  prop spec "paths" = JObj ps -> In (path, methods) ps ->
  exists group,
    renderPath tryItOut (path, methods) = Ok group /\ Infix_ group section.
Proof.
  intros H Hps Hin. unfold endpointsSection in H.
  unbind H ps' Hps'. rewrite Hps, entriesOrEmpty_mapping in Hps'.
  apply Ok_inj in Hps'. subst ps'.
  unbind H blocks Hb. apply Ok_inj in H. subst section.
  destruct (mapM_In _ _ _ _ Hb Hin) as (group & Hg & Hi).
  exists group. split; [exact Hg|].
  apply (Infix_trans _ (join blocks)); [now apply In_join | find_infix].
Qed.

Lemma path_has_method (tryItOut : bool) (path : string) (ms : list (string * JsVal))
      (group method : string) (details : JsVal) :
  renderPath tryItOut (path, JObj ms) = Ok group -> In (method, details) ms ->
  exists block,
    renderMethod tryItOut path (method, details) = Ok block /\ Infix_ block group.
Proof.
  intros H Hin. unfold renderPath in H.
  unbind H pathText Hp. unbind H ms' Hms. cbn [entries] in Hms.
  apply Ok_inj in Hms. subst ms'.
  unbind H blocks Hb. apply Ok_inj in H. subst group.
  destruct (mapM_In _ _ _ _ Hb Hin) as (block & Hm & Hi).
  exists block. split; [exact Hm|].
  apply (Infix_trans _ (join blocks)); [now apply In_join | find_infix].
Qed.

(** The block of every operation of the paths mapping is in the document. *)
Lemma document_has_method (spec : JsVal) (options : Options.t) (html : string)
      (ps : list (string * JsVal)) (path : string) (ms : list (string * JsVal))
      (method : string) (details : JsVal) :
  generateHTML spec options = Ok html ->
  prop spec "paths" = JObj ps -> In (path, JObj ms) ps -> In (method, details) ms ->
  exists block,
    renderMethod (Options.tryItOut options) path (method, details) = Ok block /\
    Infix_ block html.
Proof.
  intros H Hps Hp Hm.
  destruct (document_has_endpoints _ _ _ H) as (section & Hs & Is).
  destruct (endpoints_has_path _ _ _ _ _ _ Hs Hps Hp) as (group & Hg & Ig).
  destruct (path_has_method _ _ _ _ _ _ Hg Hm) as (block & Hb & Ib).
  exists block. split; [exact Hb|].
  exact (Infix_trans _ _ _ Ib (Infix_trans _ _ _ Ig Is)).
Qed.

(* ================================================================== *)
(** * Status codes (C3) *)

Lemma responseClass_classOfStatus (code : string) :
  responseClass code = classOfStatus code.
Proof.
  unfold responseClass, classOfStatus, startsWith.
  destruct code as [|c r]; [reflexivity|].
  cbn [firstChar String.prefix].
  destruct (ascii_dec "2" c) as [<-|n2].
  - now destruct r.
  - destruct (ascii_dec "4" c) as [<-|n4].
    + now destruct r.
    + destruct c as [[] [] [] [] [] [] [] []]; try reflexivity;
        first [now destruct n2 | now destruct n4].
Qed.

Lemma escapeHtml_orElse_empty (v : JsVal) (text : string) :
  shownAs v text -> escapeHtml (orElse v (JStr "")) = Ok text.
Proof.
  intros H. rewrite (escapeHtml_orElse v "" text H).
  unfold shownAs in H. destruct (truthy v); [reflexivity | now subst text].
Qed.

Lemma renderResponse_opening (code : string) (response : JsVal) (rblock : string) :
  renderResponse (code, response) = Ok rblock ->
  Infix_ (responseOpening code) rblock.
Proof.
  intros H. unfold renderResponse in H. returned H. subst rblock.
  unfold responseOpening. rewrite <- responseClass_classOfStatus.
  exists "
                  ". eexists.
  rewrite !append_assoc. reflexivity.
Qed.

Lemma renderMethod_responses (tryItOut : bool) (path method : string)
      (details : JsVal) (block : string)
      (rs : list (string * JsVal)) (code : string) (response : JsVal) :
  renderMethod tryItOut path (method, details) = Ok block ->
  prop details "responses" = JObj rs -> In (code, response) rs ->
  exists rblock,
    renderResponse (code, response) = Ok rblock /\ Infix_ rblock block.
Proof.
  intros H Hrs Hin. unfold renderMethod in H.
  unbind H summary Hsum. unbind H pathText Hp. unbind H summaryText Hst.
  unbind H descriptionParagraph Hd. unbind H parameters Hpar.
  unbind H requestBody Hrb. unbind H rs' Hrs'.
  rewrite Hrs, entriesOrEmpty_mapping in Hrs'. apply Ok_inj in Hrs'. subst rs'.
  unbind H responses Hr. apply Ok_inj in H. subst block.
  destruct (mapM_In _ _ _ _ Hr Hin) as (rblock & Hb & Hi).
  exists rblock. split; [exact Hb|].
  apply (Infix_trans _ (join responses)); [now apply In_join | find_infix].
Qed.

(** C3.  The class of a response is decided by the first character of its
    status code: success for 2, client for 4, server for every other code
    (the empty code included), so that 200, 301, 404 and 500 get success,
    server, client and server.  The block of a response whose description
    converts to text opens with that class and the code, then shows the
    description; and whenever an operation, or the document of a spec, is
    rendered, the block of each of its responses is there, opening with the
    class of its code. *)
Theorem response_class_by_first_digit :
  forall code : string,
    responseClass code = classOfStatus code /\
    map responseClass ["200"; "301"; "404"; "500"]
      = ["success"; "server"; "client"; "server"] /\
    (forall (response : JsVal) (descriptionText : string),
        nullish response = false ->
        shownAs (prop response "description") descriptionText ->
        exists rest,
          renderResponse (code, response) =
            Ok ("
                  " ++ responseOpening code ++ descriptionText ++ "</h4>" ++ rest)) /\
    (forall (tryItOut : bool) (path method : string) (details : JsVal)
            (rs : list (string * JsVal)) (response : JsVal) (block : string),
        renderMethod tryItOut path (method, details) = Ok block ->
        prop details "responses" = JObj rs ->
        In (code, response) rs ->
        Infix_ (responseOpening code) block) /\
    (forall (spec : JsVal) (options : Options.t) (html : string)
            (ps : list (string * JsVal)) (path : string)
            (ms : list (string * JsVal)) (method : string) (details : JsVal)
            (rs : list (string * JsVal)) (response : JsVal),
        generateHTML spec options = Ok html ->
        prop spec "paths" = JObj ps ->
        In (path, JObj ms) ps ->
        In (method, details) ms ->
        prop details "responses" = JObj rs ->
        In (code, response) rs ->
        Infix_ (responseOpening code) html).
Proof.
  intros code. split; [apply responseClass_classOfStatus|].
  split; [reflexivity|].
  assert (Hmethod : forall tryItOut path method details rs response block,
             renderMethod tryItOut path (method, details) = Ok block ->
             prop details "responses" = JObj rs ->
             In (code, response) rs ->
             Infix_ (responseOpening code) block).
  { intros tryItOut path method details rs response block H Hrs Hin.
    destruct (renderMethod_responses _ _ _ _ _ _ _ _ H Hrs Hin) as (rblock & Hb & Hi).
    exact (Infix_trans _ _ _ (renderResponse_opening _ _ _ Hb) Hi). }
  split; [|split; [exact Hmethod|]].
  - intros response descriptionText Hv Hshown.
    unfold renderResponse. rewrite (get_value _ _ Hv). cbn [bind].
    rewrite (escapeHtml_orElse_empty _ _ Hshown). cbn [bind].
    unfold responseOpening. rewrite <- responseClass_classOfStatus.
    destruct (truthy (optGet (optGet (prop response "content") "application/json") "schema")).
    + destruct (escapeHtml_stringify
                  (optGet (optGet (prop response "content") "application/json") "schema"))
        as [text ->].
      cbn [bind]. eexists. rewrite !append_assoc. reflexivity.
    + cbn [bind]. eexists. rewrite !append_assoc. reflexivity.
  - intros spec options html ps path ms method details rs response H Hps Hp Hm Hrs Hin.
    destruct (document_has_method _ _ _ _ _ _ _ _ H Hps Hp Hm) as (block & Hb & Hi).
    exact (Infix_trans _ _ _ (Hmethod _ _ _ _ _ _ _ Hb Hrs Hin) Hi).
Qed.

Lemma response_class_by_first_digit_witness :
  responseOpening "404" = tpl "<div class=~response response-client~>
                    <h4>404 " /\
  exists block,
    renderMethod false "/users/{id}" ("get", getUser) = Ok block /\
    Infix_ (responseOpening "404") block.
Proof.
  split; [reflexivity|].
  eexists. split; [vm_compute; reflexivity|].
  destruct (response_class_by_first_digit "404") as (_ & _ & _ & H & _).
  exact (H false "/users/{id}" "get" getUser
           [ ("200", JObj [("description", JStr "Found")]);
             ("404", JObj [("description", JStr "No such user")]) ]
           (JObj [("description", JStr "No such user")]) _
           eq_refl eq_refl (or_intror (or_introl eq_refl))).
Defined.

(* ================================================================== *)
(** * Request bodies (C4) *)

Lemma no_Infix_in_empty (needle : string) :
  needle <> "" -> ~ Infix_ needle "".
Proof.
  intros Hn (pre & post & E). destruct pre; [|discriminate].
  destruct needle; [now apply Hn | discriminate].
Qed.

Lemma requestBodyCode_heading (text : string) :
  Infix_ "<h3>Request Body</h3>" (requestBodyCode text).
Proof.
  unfold requestBodyCode.
  change (tpl "
                  <h3>Request Body</h3>
                  <pre><code class=~language-json~>")
    with ("
                  " ++ "<h3>Request Body</h3>" ++ tpl "
                  <pre><code class=~language-json~>").
  rewrite !append_assoc. apply Infix_app_r, Infix_here.
Qed.

Lemma jsonSchema_needs_requestBody (details : JsVal) :
  truthy (jsonSchemaOf details) = true -> truthy (prop details "requestBody") = true.
Proof.
  unfold jsonSchemaOf. destruct (prop details "requestBody") as [| |[]|z safe|s| |];
    try reflexivity; discriminate.
Qed.

(** The request-body block never throws: its text is what [JSON.stringify]
    returns. *)
Lemma requestBodyBlock_returns (details : JsVal) :
  exists text,
    escapeHtml (JSON_stringify (orElse (jsonSchemaOf details) (JObj []))) = Ok text /\
    requestBodyBlock details =
      Ok (if truthy (prop details "requestBody") then requestBodyCode text else "").
Proof.
  destruct (escapeHtml_stringify (orElse (jsonSchemaOf details) (JObj []))) as [text Ht].
  exists text. split; [exact Ht|].
  unfold requestBodyBlock.
  destruct (truthy (prop details "requestBody")) eqn:Hrb; [|reflexivity].
  unfold jsonSchemaOf in Ht.
  rewrite (optGet_value (prop details "requestBody") "content" (truthy_not_nullish _ Hrb)) in Ht.
  rewrite Ht. reflexivity.
Qed.

(** C4, at an operation whose request body has a text/plain schema and no
    JSON schema: the block is rendered all the same, with an empty object as
    its text, both by the block function and in the finished document, so
    the block is not there exactly when the body carries a JSON schema. *)
Lemma request_body_block_without_json_schema :
  (exists body,
      requestBodyBlock plainTextUpload = Ok body /\
      ~ (Infix_ "<h3>Request Body</h3>" body
           <-> truthy (jsonSchemaOf plainTextUpload) = true)) /\
  truthy (jsonSchemaOf plainTextUpload) = false /\
  requestBodyBlock plainTextUpload = Ok (requestBodyCode "{}") /\
  exists html,
    generateHTML uploadSpec (defaults false) = Ok html /\
    Infix_ (requestBodyCode "{}") html.
Proof.
  split.
  { exists (requestBodyCode "{}"). split; [reflexivity|].
    intros [H _]. specialize (H (requestBodyCode_heading "{}")). discriminate. }
  split; [reflexivity|]. split; [reflexivity|].
  eexists. split; [vm_compute; reflexivity|].
  infix_by_evaluation.
Qed.

(** C4, amended.  The request-body block of an operation is rendered exactly
    when the operation has a request body (a truthy [requestBody]); its text
    is the JSON schema of the body when the body has one, and the empty
    object otherwise; and the block of the method contains it. *)
Theorem request_body_block_iff_requestBody :
  forall details : JsVal,
    let requestBody := prop details "requestBody" in
    let schema := jsonSchemaOf details in
    (exists body,
        requestBodyBlock details = Ok body /\
        (Infix_ "<h3>Request Body</h3>" body <-> truthy requestBody = true)) /\
    (truthy requestBody = false -> requestBodyBlock details = Ok "") /\
    (truthy requestBody = true -> truthy schema = false ->
       requestBodyBlock details = Ok (requestBodyCode "{}")) /\
    (truthy schema = true ->
       exists json,
         JSON_stringify schema = JStr json /\
         escapeHtml (JSON_stringify schema) = Ok (escapedForm json) /\
         requestBodyBlock details = Ok (requestBodyCode (escapedForm json))) /\
    (forall tryItOut path method block,
        renderMethod tryItOut path (method, details) = Ok block ->
        exists body,
          requestBodyBlock details = Ok body /\ Infix_ body block).
Proof.
  intros details requestBody schema.
  destruct (requestBodyBlock_returns details) as (text & Ht & Hblock).
  fold requestBody schema in Ht, Hblock.
  split; [|split; [|split; [|split]]].
  - rewrite Hblock. eexists. split; [reflexivity|].
    destruct (truthy requestBody).
    + split; [reflexivity | intros _; apply requestBodyCode_heading].
    + split; [|discriminate]. intros H. exfalso.
      now apply (no_Infix_in_empty "<h3>Request Body</h3>").
  - intros H. now rewrite Hblock, H.
  - intros H Hs. rewrite Hblock, H. unfold orElse in Ht. rewrite Hs in Ht.
    apply Ok_inj in Ht. now subst text.
  - intros Hs.
    assert (Hrb : truthy requestBody = true)
      by exact (jsonSchema_needs_requestBody details Hs).
    destruct (JSON_stringify_text _ Hs) as [json Hj].
    unfold orElse in Ht. rewrite Hs, Hj, escapeHtml_text in Ht.
    apply Ok_inj in Ht. subst text.
    exists json. split; [exact Hj|]. split; [rewrite Hj; apply escapeHtml_text|].
    now rewrite Hblock, Hrb.
  - intros tryItOut path method block Hm. unfold renderMethod in Hm.
    unbind Hm summary Hsum. unbind Hm pathText Hp. unbind Hm summaryText Hst.
    unbind Hm descriptionParagraph Hd. unbind Hm parameters Hpar.
    unbind Hm body Hrb. unbind Hm rs Hrs. unbind Hm responses Hr.
    apply Ok_inj in Hm. subst block.
    exists body. split; [exact Hrb | find_infix].
Qed.

Lemma request_body_block_iff_requestBody_witness :
  truthy (prop plainTextUpload "requestBody") = true /\
  truthy (jsonSchemaOf plainTextUpload) = false /\
  requestBodyBlock plainTextUpload = Ok (requestBodyCode "{}").
Proof.
  split; [reflexivity|]. split; [reflexivity|].
  destruct (request_body_block_iff_requestBody plainTextUpload) as (_ & _ & H & _).
  exact (H eq_refl eq_refl).
Defined.

(* ================================================================== *)
(** * Themes (C5) *)

Lemma getCSS_known :
  getCSS "light" = stylesheet (Table light) /\
  getCSS "dark" = stylesheet (Table dark) /\
  getCSS "dracula" = stylesheet (Table dracula) /\
  getCSS "github" = stylesheet (Table github).
Proof. repeat split. Qed.

(** A name that is neither a theme nor a member of [Object.prototype] gets
    the light stylesheet. *)
Lemma getCSS_fallback (theme : string) :
  ~ In theme ["light"; "dark"; "dracula"; "github"] ->
  ~ In theme objectPrototype ->
  getCSS theme = getCSS "light".
Proof.
  intros Hk Hp. unfold getCSS, colors.
  destruct (String.eqb_spec theme "light") as [->|_]; [reflexivity|].
  destruct (String.eqb_spec theme "dark") as [->|_]; [exfalso; apply Hk; simpl; tauto|].
  destruct (String.eqb_spec theme "dracula") as [->|_]; [exfalso; apply Hk; simpl; tauto|].
  destruct (String.eqb_spec theme "github") as [->|_]; [exfalso; apply Hk; simpl; tauto|].
  destruct (existsb (String.eqb theme) objectPrototype) eqn:E; [|reflexivity].
  exfalso. apply Hp. apply existsb_exists in E as (x & Hin & Hx).
  apply String.eqb_eq in Hx. now subst x.
Qed.

(** C5, at the theme name [constructor].  [colors["constructor"]] is the
    member that the object literal inherits, which is truthy, so the fallback
    of line 285 is not taken: the stylesheet is not the light one, and its
    colors read [undefined]. *)
Theorem getCSS_inherited_name_not_light :
  ~ In "constructor" ["light"; "dark"; "dracula"; "github"] /\
  getCSS "constructor" <> getCSS "light" /\
  includes (getCSS "constructor") "background: undefined; color: undefined;" = true /\
  includes (getCSS "light") "background: #ffffff; color: #333333;" = true.
Proof.
  split.
  - simpl. intros [H|[H|[H|[H|[]]]]]; discriminate.
  - split; [|split; vm_compute; reflexivity].
    intros E. apply (f_equal (fun s => includes s "undefined")) in E.
    vm_compute in E. discriminate.
Qed.

(* ================================================================== *)
(** * Anchors (C6) *)

Lemma slugify_chars (path : string) : slugify path = mapString anchorChar path.
Proof. unfold slugify, toLowerCase. now rewrite mapString_compose. Qed.



(* ================================================================== *)
(** * Documents without paths (C7) *)


Lemma renderSchema_total (entry : string * JsVal) : exists s, renderSchema entry = Ok s.
Proof.
  destruct entry as [name schema]. unfold renderSchema.
  rewrite escapeHtml_text. cbn [bind].
  destruct (escapeHtml_stringify schema) as [text ->]. cbn [bind]. eauto.
Qed.

Lemma mapM_total {A B} (f : A -> result B) (l : list A) :
  (forall a, exists b, f a = Ok b) -> exists bs, mapM f l = Ok bs.
Proof.
  intros Hf. induction l as [|a l [bs IH]]; [now exists []|].
  cbn [mapM]. destruct (Hf a) as [b ->]. rewrite IH. cbn [bind]. eauto.
Qed.

Lemma schemasBlock_total (spec : JsVal) : exists s, schemasBlock spec = Ok s.
Proof.
  unfold schemasBlock.
  destruct (truthy (optGet (prop spec "components") "schemas")) eqn:H; [|eauto].
  destruct (entries_total _ (truthy_not_nullish _ H)) as [ss ->].
  cbn [bind]. destruct (mapM_total renderSchema ss renderSchema_total) as [items ->].
  cbn [bind]. eauto.
Qed.







(* ================================================================== *)
(** * Validation (C8) *)

(** C8.  On a decoded document [validateSpec] returns; [valid] is true
    exactly when the error list is empty; the list has one string for each
    failed check, in the order version, info, paths; a document with none of
    the keys gets three errors and is invalid, and a document with only
    [paths] gets two. *)
Theorem validateSpec_reports :
  forall spec : JsVal,
    nullish spec = false ->
    exists v,
      validateSpec spec = Ok v /\
      (Validation.valid v = true <-> Validation.errors v = []) /\
      Validation.errors v =
        ((if negb (truthy (prop spec "openapi")) && negb (truthy (prop spec "swagger"))
          then ["Missing openapi or swagger version"] else []) ++
         (if negb (truthy (prop spec "info")) then ["Missing info object"] else []) ++
         (if negb (truthy (prop spec "paths")) then ["Missing paths object"] else []))%list /\
      (truthy (prop spec "openapi") = false ->
       truthy (prop spec "swagger") = false ->
       truthy (prop spec "info") = false ->
       (truthy (prop spec "paths") = false ->
          List.length (Validation.errors v) = 3 /\ Validation.valid v = false) /\
       (truthy (prop spec "paths") = true ->
          List.length (Validation.errors v) = 2 /\ Validation.valid v = false)).
Proof.
  intros spec Hs. unfold validateSpec. rewrite (get_value _ _ Hs). cbn [bind].
  eexists. split; [reflexivity|].
  cbn [Validation.valid Validation.errors]. unfold pushIf.
  destruct (truthy (prop spec "openapi")), (truthy (prop spec "swagger")),
    (truthy (prop spec "info")), (truthy (prop spec "paths")); cbn;
    (split; [split; intros; congruence|]);
    (split; [reflexivity|]); intros; split; intros; split; congruence.
Qed.

Lemma validateSpec_reports_witness :
  nullish (JObj [("paths", JObj [])]) = false /\
  exists v, validateSpec (JObj [("paths", JObj [])]) = Ok v /\
            List.length (Validation.errors v) = 2.
Proof.
  split; [reflexivity|].
  destruct (validateSpec_reports (JObj [("paths", JObj [])]) eq_refl)
    as (v & Hv & _ & _ & H).
  exists v. split; [exact Hv|].
  destruct (H eq_refl eq_refl eq_refl) as (_ & H2).
  exact (proj1 (H2 eq_refl)).
Defined.

(* ================================================================== *)
(** * The loader (C9) *)

Lemma finalSegment_no_dot (s : string) :
  occurs "." s = false -> finalSegment s = s.
Proof.
  destruct s as [|a r]; [reflexivity|].
  cbn [occurs finalSegment]. intros H.
  apply orb_false_iff in H as [Ha Hr]. now rewrite Hr, Ha.
Qed.

Lemma split_no_dot (s : string) :
  occurs "." s = false -> split "." s = [s].
Proof.
  induction s as [|a r IH]; [reflexivity|].
  cbn [occurs split]. intros H.
  apply orb_false_iff in H as [Ha Hr]. now rewrite Ha, (IH Hr).
Qed.

Lemma split_dot (s : string) :
  occurs "." s = true -> exists seg seg' segs, split "." s = seg :: seg' :: segs.
Proof.
  induction s as [|a r IH]; [discriminate|].
  cbn [occurs split]. destruct (Ascii.eqb a ".") eqn:Ha.
  - intros _. destruct (occurs "." r) eqn:Hr.
    + destruct (IH eq_refl) as (x & y & l & ->). eauto.
    + rewrite (split_no_dot _ Hr). eauto.
  - cbn [orb]. intros Hr. destruct (IH Hr) as (x & y & l & ->). eauto.
Qed.

Lemma pop_cons (x y : string) (l : list string) : pop (x :: y :: l) = pop (y :: l).
Proof.
  unfold pop. cbn [rev]. destruct (rev l) as [|z t]; reflexivity.
Qed.

Lemma extension_finalSegment (inputPath : string) :
  extension inputPath = Some (finalSegment inputPath).
Proof.
  unfold extension. induction inputPath as [|a r IH]; [reflexivity|].
  cbn [split finalSegment]. destruct (occurs "." r) eqn:Hr.
  - destruct (split_dot _ Hr) as (x & y & l & E). rewrite E in *.
    destruct (Ascii.eqb a "."); rewrite pop_cons;
      [exact IH | rewrite pop_cons in IH; exact IH].
  - rewrite (split_no_dot _ Hr). destruct (Ascii.eqb a "."); reflexivity.
Qed.

Lemma finalSegment_dotless (s : string) : occurs "." (finalSegment s) = false.
Proof.
  induction s as [|a r IH]; [reflexivity|].
  cbn [finalSegment]. destruct (occurs "." r) eqn:Hr; [exact IH|].
  destruct (Ascii.eqb a ".") eqn:Ha; [exact Hr|].
  cbn [occurs]. now rewrite Ha, Hr.
Qed.

Lemma finalSegment_after_last_dot (s : string) :
  occurs "." s = true -> exists pre, s = pre ++ "." ++ finalSegment s.
Proof.
  induction s as [|a r IH]; [discriminate|].
  cbn [occurs finalSegment]. destruct (occurs "." r) eqn:Hr.
  - intros _. destruct (IH eq_refl) as [pre E].
    exists (String a pre). change (String a r = String a (pre ++ "." ++ finalSegment r)).
    f_equal. exact E.
  - rewrite orb_false_r. intros Ha. rewrite Ha.
    apply Ascii.eqb_eq in Ha. subst a. now exists "".
Qed.

Section LoaderFacts.
Variable readFileSync : string -> option string.
Variable yaml_parse : string -> option JsVal.
Variable JSON_parse : string -> option JsVal.

(** C9.  The decoder is chosen by the final segment of the path alone (what
    follows the last dot, the whole path when there is none): the content of
    a [yaml] or [yml] file goes to the YAML decoder, and the content of any
    other file to the JSON decoder.  [parseSpec] fails with a decode error
    exactly when the file can be read and that decoder rejects its content,
    and returns the decoded tree exactly when that decoder accepts it; a file
    that cannot be read is an input error. *)
Theorem parseSpec_decoder_by_extension :
  forall inputPath : string,
    let ext := finalSegment inputPath in
    let parse :=
      if String.eqb ext "yaml" || String.eqb ext "yml" then yaml_parse else JSON_parse in
    ((occurs "." inputPath = false /\ ext = inputPath) \/
     (exists pre, inputPath = pre ++ "." ++ ext /\ occurs "." ext = false)) /\
    decoderFor inputPath
      = (if String.eqb ext "yaml" || String.eqb ext "yml" then YAML else JSON) /\
    (parseSpec readFileSync yaml_parse JSON_parse inputPath = DecodeError <->
     exists content,
       readFileSync inputPath = Some content /\ parse content = None) /\
    (forall spec,
        parseSpec readFileSync yaml_parse JSON_parse inputPath = Spec spec <->
        exists content,
          readFileSync inputPath = Some content /\ parse content = Some spec) /\
    (parseSpec readFileSync yaml_parse JSON_parse inputPath = InputError <->
     readFileSync inputPath = None).
Proof.
  intros inputPath ext parse.
  assert (Hd : decoderFor inputPath
               = (if String.eqb ext "yaml" || String.eqb ext "yml" then YAML else JSON)).
  { unfold decoderFor. rewrite extension_finalSegment. reflexivity. }
  assert (Hp : forall content,
             decode yaml_parse JSON_parse (decoderFor inputPath) content = parse content).
  { intros content. rewrite Hd. unfold parse.
    now destruct (String.eqb ext "yaml" || String.eqb ext "yml"). }
  split.
  { destruct (occurs "." inputPath) eqn:Hdot.
    - right. destruct (finalSegment_after_last_dot _ Hdot) as [pre E].
      exists pre. split; [exact E | apply finalSegment_dotless].
    - left. split; [reflexivity | now apply finalSegment_no_dot]. }
  split; [exact Hd|].
  unfold parseSpec.
  destruct (readFileSync inputPath) as [content|].
  - rewrite Hp. destruct (parse content) as [v|] eqn:Hv.
    + split; [split; [discriminate | intros (c & [= <-] & H); congruence]|].
      split; [|split; discriminate].
      intros spec. split.
      * intros [= <-]. now exists content.
      * intros (c & [= <-] & H). congruence.
    + split; [split; [intros _; now exists content | reflexivity]|].
      split; [|split; discriminate].
      intros spec. split; [discriminate|].
      intros (c & [= <-] & H). congruence.
  - split; [split; [discriminate | intros (c & H & _); discriminate]|].
    split; [|split; reflexivity].
    intros spec. split; [discriminate | intros (c & H & _); discriminate].
Qed.
End LoaderFacts.

Lemma parseSpec_decoder_by_extension_witness :
  finalSegment "docs/api.v2.yml" = "yml" /\
  parseSpec sampleDisk sampleYaml sampleJson "docs/api.v2.yml"
    = Spec (JObj [("paths", JObj [])]).
Proof.
  split; [reflexivity|].
  destruct (parseSpec_decoder_by_extension sampleDisk sampleYaml sampleJson
              "docs/api.v2.yml") as (_ & _ & _ & Hs & _).
  apply Hs. exists "paths: {}". split; reflexivity.
Defined.

(* ================================================================== *)
(** * Parameter rows (C10) *)

Lemma paramRow_cells (name type in_ required description : string) :
  paramRow name type in_ required description =
    "
                        " ++ parameterCells name type in_ required description ++ "
                      ".
Proof. unfold paramRow, parameterCells. rewrite !append_assoc. reflexivity. Qed.

Lemma parametersBlock_rows (details : JsVal) (l : list JsVal) (param : JsVal)
      (table : string) :
  parametersBlock details = Ok table ->
  prop details "parameters" = JArr l -> In param l ->
  Infix_ parameterColumns table /\
  exists row, renderParam param = Ok row /\ Infix_ row table.
Proof.
  intros H Hpar Hin. unfold parametersBlock in H. rewrite Hpar in H.
  destruct l as [|p l]; [destruct Hin|].
  cbn [hasLength List.length Nat.eqb negb] in H.
  unbind H rows Hrows. apply Ok_inj in H. subst table. split.
  - apply Infix_app_l. infix_by_evaluation.
  - destruct (mapM_In _ _ _ _ Hrows Hin) as (row & Hrow & Hi).
    exists row. split; [exact Hrow|].
    apply (Infix_trans _ (join rows)); [now apply In_join | find_infix].
Qed.

Lemma renderMethod_parameters (tryItOut : bool) (path method : string)
      (details : JsVal) (block : string) :
  renderMethod tryItOut path (method, details) = Ok block ->
  exists table, parametersBlock details = Ok table /\ Infix_ table block.
Proof.
  intros H. unfold renderMethod in H.
  unbind H summary Hsum. unbind H pathText Hp. unbind H summaryText Hst.
  unbind H descriptionParagraph Hd. unbind H table Hpar.
  unbind H requestBody Hrb. unbind H rs Hrs. unbind H responses Hr.
  apply Ok_inj in H. subst block.
  exists table. split; [exact Hpar | find_infix].
Qed.

Lemma escapeHtml_orElse_inv (v : JsVal) (d cell : string) :
  escapeHtml (orElse v (JStr d)) = Ok cell ->
  exists text,
    shownAs v text /\ cell = (if truthy v then text else escapedForm d).
Proof.
  unfold orElse, shownAs. destruct (truthy v) eqn:Hv; intros H.
  - exists cell. split; [|reflexivity].
    apply escapeHtml_shownAs in H. unfold shownAs in H. now rewrite Hv in H.
  - rewrite escapeHtml_text in H. apply Ok_inj in H. now exists "".
Qed.

(** C10.  The row of a parameter has five cells, in the order of the columns
    Name, Type, In, Required, Description.  The Type cell shows the escaped
    [schema.type] when there is one (a truthy value, as the test of line 177
    has it) and [string] otherwise; the Description cell shows the escaped
    description when there is one and a dash otherwise; the Required cell
    shows Yes exactly when [required] is truthy and No otherwise.
    [renderParam] returns that row, and nothing else, exactly for a parameter
    that is a value and whose name, type, place and description convert to
    text; and whenever the parameter table, the block of an operation or the
    document is rendered, the heads of the five columns and the row of each
    parameter are in it. *)
Theorem parameter_row_defaults :
  forall param : JsVal,
    let type := optGet (prop param "schema") "type" in
    let description := prop param "description" in
    let required := prop param "required" in
    let shown (nameText typeText inText descriptionText : string) :=
      shownAs (prop param "name") nameText /\
      shownAs type typeText /\
      shownAs (prop param "in") inText /\
      shownAs description descriptionText in
    let rowOf (nameText typeText inText descriptionText : string) :=
      parameterCells nameText
                     (if truthy type then typeText else "string")
                     inText
                     (if truthy required then "Yes" else "No")
                     (if truthy description then descriptionText else "-") in
    (forall row : string,
        renderParam param = Ok row <->
        nullish param = false /\
        exists nameText typeText inText descriptionText,
          shown nameText typeText inText descriptionText /\
          row = "
                        " ++ rowOf nameText typeText inText descriptionText ++ "
                      ") /\
    (forall (details : JsVal) (l : list JsVal) (table : string),
        parametersBlock details = Ok table ->
        prop details "parameters" = JArr l ->
        In param l ->
        Infix_ parameterColumns table /\
        exists nameText typeText inText descriptionText,
          shown nameText typeText inText descriptionText /\
          Infix_ (rowOf nameText typeText inText descriptionText) table) /\
    (forall (tryItOut : bool) (path method : string) (details : JsVal)
            (l : list JsVal) (block : string),
        renderMethod tryItOut path (method, details) = Ok block ->
        prop details "parameters" = JArr l ->
        In param l ->
        Infix_ parameterColumns block /\
        exists nameText typeText inText descriptionText,
          shown nameText typeText inText descriptionText /\
          Infix_ (rowOf nameText typeText inText descriptionText) block) /\
    (forall (spec : JsVal) (options : Options.t) (html : string)
            (ps : list (string * JsVal)) (path : string)
            (ms : list (string * JsVal)) (method : string) (details : JsVal)
            (l : list JsVal),
        generateHTML spec options = Ok html ->
        prop spec "paths" = JObj ps ->
        In (path, JObj ms) ps ->
        In (method, details) ms ->
        prop details "parameters" = JArr l ->
        In param l ->
        Infix_ parameterColumns html /\
        exists nameText typeText inText descriptionText,
          shown nameText typeText inText descriptionText /\
          Infix_ (rowOf nameText typeText inText descriptionText) html).
Proof.
  intros param type description required shown rowOf.
  assert (Hrow : forall row,
             renderParam param = Ok row <->
             nullish param = false /\
             exists nameText typeText inText descriptionText,
               shown nameText typeText inText descriptionText /\
               row = "
                        " ++ rowOf nameText typeText inText descriptionText ++ "
                      ").
  { intros row. split.
    - intros H. unfold renderParam in H.
      unbind H name Hname. unbind H nameCell Hn. unbind H typeCell Ht.
      unbind H inCell Hi. unbind H descriptionCell Hd. apply Ok_inj in H.
      assert (Hp : nullish param = false).
      { unfold get in Hname. now destruct (nullish param). }
      rewrite (get_value _ _ Hp) in Hname. apply Ok_inj in Hname. subst name.
      apply escapeHtml_shownAs in Hn. apply escapeHtml_shownAs in Hi.
      destruct (escapeHtml_orElse_inv _ _ _ Ht) as (typeText & Htype & ->).
      destruct (escapeHtml_orElse_inv _ _ _ Hd) as (descriptionText & Hdesc & ->).
      split; [exact Hp|].
      exists nameCell, typeText, inCell, descriptionText.
      split; [repeat split; assumption|].
      subst row. rewrite paramRow_cells. reflexivity.
    - intros (Hp & nameText & typeText & inText & descriptionText
              & (Hname & Htype & Hin & Hdesc) & ->).
      unfold renderParam. rewrite (get_value _ _ Hp). cbn [bind].
      rewrite (proj2 (escapeHtml_shownAs _ _) Hname). cbn [bind].
      fold type. rewrite (escapeHtml_orElse _ "string" _ Htype). cbn [bind].
      rewrite (proj2 (escapeHtml_shownAs _ _) Hin). cbn [bind].
      fold description. rewrite (escapeHtml_orElse _ "-" _ Hdesc). cbn [bind].
      rewrite paramRow_cells. reflexivity. }
  assert (Htable : forall details l table,
             parametersBlock details = Ok table ->
             prop details "parameters" = JArr l ->
             In param l ->
             Infix_ parameterColumns table /\
             exists nameText typeText inText descriptionText,
               shown nameText typeText inText descriptionText /\
               Infix_ (rowOf nameText typeText inText descriptionText) table).
  { intros details l table H Hpar Hl.
    destruct (parametersBlock_rows _ _ _ _ H Hpar Hl) as (Hcols & row & Hr & Hi).
    split; [exact Hcols|].
    apply Hrow in Hr.
    destruct Hr as (_ & nameText & typeText & inText & descriptionText & Hshown & ->).
    exists nameText, typeText, inText, descriptionText. split; [exact Hshown|].
    refine (Infix_trans _ _ _ _ Hi). apply Infix_app_r, Infix_here. }
  assert (Hmethod : forall tryItOut path method details l block,
             renderMethod tryItOut path (method, details) = Ok block ->
             prop details "parameters" = JArr l ->
             In param l ->
             Infix_ parameterColumns block /\
             exists nameText typeText inText descriptionText,
               shown nameText typeText inText descriptionText /\
               Infix_ (rowOf nameText typeText inText descriptionText) block).
  { intros tryItOut path method details l block H Hpar Hl.
    destruct (renderMethod_parameters _ _ _ _ _ H) as (table & Ht & Hi).
    destruct (Htable _ _ _ Ht Hpar Hl)
      as (Hcols & nameText & typeText & inText & descriptionText & Hshown & Hr).
    split; [exact (Infix_trans _ _ _ Hcols Hi)|].
    exists nameText, typeText, inText, descriptionText.
    split; [exact Hshown | exact (Infix_trans _ _ _ Hr Hi)]. }
  split; [exact Hrow|]. split; [exact Htable|]. split; [exact Hmethod|].
  intros spec options html ps path ms method details l H Hps Hpath Hm Hpar Hl.
  destruct (document_has_method _ _ _ _ _ _ _ _ H Hps Hpath Hm) as (block & Hb & Hi).
  destruct (Hmethod _ _ _ _ _ _ Hb Hpar Hl)
    as (Hcols & nameText & typeText & inText & descriptionText & Hshown & Hr).
  split; [exact (Infix_trans _ _ _ Hcols Hi)|].
  exists nameText, typeText, inText, descriptionText.
  split; [exact Hshown | exact (Infix_trans _ _ _ Hr Hi)].
Qed.

Lemma parameter_row_defaults_witness :
  nullish idParam = false /\
  renderParam idParam = Ok ("
                        " ++ parameterCells "id" "string" "path" "Yes" "-" ++ "
                      ") /\
  exists block,
    renderMethod false "/users/{id}" ("get", getUser) = Ok block /\
    Infix_ parameterColumns block.
Proof.
  split; [reflexivity|].
  destruct (parameter_row_defaults idParam) as (Hrow & _ & Hmethod & _).
  split.
  - apply Hrow. split; [reflexivity|].
    exists "id", "", "path", "".
    split; [|reflexivity].
    split; [exists "id"; split; reflexivity|].
    split; [reflexivity|].
    split; [exists "path"; split; reflexivity | reflexivity].
  - eexists. split; [vm_compute; reflexivity|].
    exact (proj1 (Hmethod false "/users/{id}" "get" getUser [idParam] _
                    eq_refl eq_refl (or_introl eq_refl))).
Defined.

(* ================================================================== *)
(** * The end-to-end scenario *)

(** The scenario of the specification: the document of [usersSpec] with the
    default options contains the text [List users] and the anchor
    [-users-get], and the index has the single entry of GET /users. *)
Example users_end_to_end :
  (exists html,
      generateHTML usersSpec (defaults false) = Ok html /\
      includes html "List users" = true /\
      includes html (tpl "<div id=~-users-get~") = true) /\
  generateSearchIndex usersSpec =
    Ok [SearchEntry.Build "/users" "get" (JStr "List users") (JStr "") "-users-get"].
Proof.
  split; [|reflexivity].
  eexists. split; [vm_compute; reflexivity|].
  split; vm_compute; reflexivity.
Qed.

(* ================================================================== *)
(** * More on [escapeHtml] and [slugify] *)

Lemma entity_shape (a : ascii) :
  (isSpecial a = false /\ entity a = String a "") \/
  (isSpecial a = true /\ exists name, In name entityNames /\ entity a = String "&" name).
Proof.
  destruct a as [[] [] [] [] [] [] [] []];
    first [ left; split; reflexivity
          | right; split; [reflexivity|]; eexists; split; [|reflexivity];
            simpl; tauto ].
Qed.

Lemma entityNames_no_ampersand (name : string) :
  In name entityNames -> occurs "&" name = false.
Proof.
  simpl. intros [<-|[<-|[<-|[<-|[<-|[]]]]]]; reflexivity.
Qed.

Lemma not_special_not_ampersand (a : ascii) :
  isSpecial a = false -> Ascii.eqb a "&" = false.
Proof. unfold isSpecial. destruct (Ascii.eqb a "&"); [discriminate | reflexivity]. Qed.

(** An ampersand found after a text without one lies in what follows. *)
Lemma ampersand_after (x y pre post : string) :
  occurs "&" x = false ->
  x ++ y = pre ++ String "&" post ->
  exists pre', pre = x ++ pre' /\ y = pre' ++ String "&" post.
Proof.
  revert pre. induction x as [|a x IH]; intros pre Hx E.
  - now exists pre.
  - cbn [occurs] in Hx. apply orb_false_iff in Hx as [Ha Hx].
    destruct pre as [|b pre]; cbn [append] in E.
    + injection E as -> _. now rewrite Ascii.eqb_refl in Ha.
    + injection E as -> E. destruct (IH pre Hx E) as (pre' & -> & Hy).
      now exists pre'.
Qed.

Lemma escapedForm_ampersands (s pre post : string) :
  escapedForm s = pre ++ String "&" post ->
  exists name rest, In name entityNames /\ post = name ++ rest.
Proof.
  revert pre. induction s as [|a r IH]; intros pre E.
  - destruct pre; discriminate.
  - cbn [escapedForm] in E.
    destruct (entity_shape a) as [[Ha Hent] | [_ (name & Hname & Hent)]];
      rewrite Hent in E.
    + destruct pre as [|b pre]; cbn [append] in E.
      * injection E as -> _. apply not_special_not_ampersand in Ha.
        now rewrite Ascii.eqb_refl in Ha.
      * injection E as _ E. exact (IH pre E).
    + destruct pre as [|b pre]; cbn [append] in E.
      * injection E as <-. now exists name, (escapedForm r).
      * injection E as _ E.
        destruct (ampersand_after name (escapedForm r) pre post
                    (entityNames_no_ampersand name Hname) E) as (pre' & _ & E').
        exact (IH pre' E').
Qed.

(** X1.  Whatever value it is given, what [escapeHtml] returns is text
    without markup: no angle bracket, no double and no single quote, and every
    ampersand in it begins one of the five entities. *)
Theorem escapeHtml_returns_text :
  forall (v : JsVal) (text : string),
    escapeHtml v = Ok text ->
    occurs "<" text = false /\
    occurs ">" text = false /\
    occurs dquote text = false /\
    occurs "'" text = false /\
    (forall pre post,
        text = pre ++ String "&" post ->
        exists name rest, In name entityNames /\ post = name ++ rest).
Proof.
  intros v text H. destruct (escapeHtml_safe v text H) as (H1 & H2 & H3 & H4).
  repeat (split; [assumption|]).
  intros pre post E. apply escapeHtml_shownAs in H. unfold shownAs in H.
  destruct (truthy v).
  - destruct H as (t & _ & ->). exact (escapedForm_ampersands _ _ _ E).
  - subst text. destruct pre; discriminate.
Qed.

Lemma escapeHtml_returns_text_witness :
  escapeHtml (JStr "a<b & c") = Ok "a&lt;b &amp; c" /\
  occurs "<" "a&lt;b &amp; c" = false.
Proof.
  split; [reflexivity|].
  exact (proj1 (escapeHtml_returns_text (JStr "a<b & c") "a&lt;b &amp; c" eq_refl)).
Defined.

Lemma unescape_entity (a : ascii) (x : string) :
  unescapeHtml (entity a ++ x) = String a (unescapeHtml x).
Proof. destruct a as [[] [] [] [] [] [] [] []]; reflexivity. Qed.

Lemma unescape_escapedForm (s : string) : unescapeHtml (escapedForm s) = s.
Proof.
  induction s as [|a r IH]; [reflexivity|].
  cbn [escapedForm]. now rewrite unescape_entity, IH.
Qed.

(** X2.  Escaping loses nothing: reading the five entities back gives the
    text that was escaped, so two different texts never have the same
    escaped form. *)
Theorem escapeHtml_round_trip :
  forall s : string,
    (exists text, escapeHtml (JStr s) = Ok text /\ unescapeHtml text = s) /\
    (forall t, escapeHtml (JStr s) = escapeHtml (JStr t) -> s = t).
Proof.
  intros s. split.
  - exists (escapedForm s). split; [apply escapeHtml_text | apply unescape_escapedForm].
  - intros t E. rewrite !escapeHtml_text in E. apply Ok_inj in E.
    rewrite <- (unescape_escapedForm s), <- (unescape_escapedForm t).
    now rewrite E.
Qed.

Lemma escapedForm_plain (s : string) : plain s = true -> escapedForm s = s.
Proof.
  induction s as [|a r IH]; [reflexivity|].
  unfold plain. cbn [allChars escapedForm]. intros H.
  apply andb_true_iff in H as [Ha Hr]. apply negb_true_iff in Ha.
  destruct (entity_shape a) as [[_ ->] | [Ha' _]]; [|congruence].
  cbn [append]. f_equal. now apply IH.
Qed.

Lemma length_append (x y : string) :
  String.length (x ++ y) = (String.length x + String.length y)%nat.
Proof. induction x as [|a x IH]; cbn; [reflexivity | now rewrite IH]. Qed.

Lemma escapedForm_length (s : string) :
  (String.length s <= String.length (escapedForm s))%nat /\
  (plain s = false -> (String.length s < String.length (escapedForm s))%nat).
Proof.
  induction s as [|a r (IHle & IHlt)]; [split; [cbn; lia | discriminate]|].
  cbn [escapedForm]. rewrite length_append. unfold plain in *.
  cbn [allChars String.length].
  destruct (entity_shape a) as [[Ha ->] | [Ha (name & Hname & ->)]]; rewrite Ha.
  - cbn [negb andb String.length]. split; [lia|]. intros H. specialize (IHlt H). lia.
  - cbn [negb andb String.length].
    assert (1 <= String.length name)%nat.
    { simpl in Hname.
      destruct Hname as [<-|[<-|[<-|[<-|[<-|[]]]]]]; cbn; lia. }
    split; [lia | intros _; lia].
Qed.

Lemma escapedForm_has_ampersand (s : string) :
  plain s = false -> occurs "&" (escapedForm s) = true.
Proof.
  induction s as [|a r IH]; [discriminate|].
  unfold plain in *. cbn [allChars escapedForm]. rewrite occurs_app.
  destruct (entity_shape a) as [[Ha ->] | [Ha (name & _ & ->)]]; rewrite Ha.
  - cbn [negb andb]. intros H. rewrite (IH H). apply orb_true_r.
  - intros _. reflexivity.
Qed.

Lemma plain_no_ampersand (s : string) : plain s = true -> occurs "&" s = false.
Proof.
  induction s as [|a r IH]; [reflexivity|].
  unfold plain in *. cbn [allChars occurs]. intros H.
  apply andb_true_iff in H as [Ha Hr]. apply negb_true_iff in Ha.
  now rewrite (not_special_not_ampersand a Ha), (IH Hr).
Qed.

(** X3.  [escapeHtml] leaves a text as it is exactly when the text has none
    of the five characters; on any other text it is not idempotent: escaping
    the escaped text changes it again (the ampersands of the entities are
    escaped in turn). *)
Theorem escapeHtml_fixes_plain_text_only :
  forall s : string,
    (escapeHtml (JStr s) = Ok s <-> plain s = true) /\
    (forall once,
        escapeHtml (JStr s) = Ok once ->
        (escapeHtml (JStr once) = Ok once <-> plain s = true)).
Proof.
  intros s.
  assert (Hfix : forall t, escapedForm t = t <-> plain t = true).
  { intros t. split; [|apply escapedForm_plain].
    intros E. destruct (plain t) eqn:Hp; [reflexivity|].
    destruct (escapedForm_length t) as [_ Hlt]. specialize (Hlt Hp).
    rewrite E in Hlt. lia. }
  assert (Hok : forall t u, escapeHtml (JStr t) = Ok u <-> escapedForm t = u).
  { intros t u. rewrite escapeHtml_text. split; [apply Ok_inj | now intros ->]. }
  split; [now rewrite Hok|].
  intros once Honce. apply Hok in Honce. subst once.
  rewrite Hok, Hfix. split.
  - intros Hp. destruct (plain s) eqn:Hs; [reflexivity|].
    apply plain_no_ampersand in Hp.
    now rewrite (escapedForm_has_ampersand s Hs) in Hp.
  - intros Hs. now rewrite (escapedForm_plain s Hs).
Qed.

Lemma escapeHtml_fixes_plain_text_only_witness :
  escapeHtml (JStr "a&b") = Ok "a&amp;b" /\
  ~ escapeHtml (JStr "a&amp;b") = Ok "a&amp;b".
Proof.
  split; [reflexivity|].
  intros H.
  apply (proj2 (escapeHtml_fixes_plain_text_only "a&b") "a&amp;b" eq_refl) in H.
  discriminate.
Defined.

Lemma anchorChar_idempotent (c : ascii) : anchorChar (anchorChar c) = anchorChar c.
Proof. destruct c as [[] [] [] [] [] [] [] []]; reflexivity. Qed.




Lemma mapString_ext (f g : ascii -> ascii) (s : string) :
  (forall c, f c = g c) -> mapString f s = mapString g s.
Proof. intros H. induction s as [|a r IH]; cbn; [reflexivity | now rewrite H, IH]. Qed.

Lemma mapString_app (f : ascii -> ascii) (x y : string) :
  mapString f (x ++ y) = mapString f x ++ mapString f y.
Proof. induction x as [|a x IH]; cbn; [reflexivity | now rewrite IH]. Qed.


(** X5.  Anchors collide.  A path that is not its own anchor (any path with
    a slash, an uppercase letter or another character outside a-z, 0-9 and
    the dash) shares its anchor with a different path, and writing a dash
    for a slash anywhere in a path does not change the anchor. *)
Theorem slugify_collisions :
  forall path : string,
    (slugify path <> path ->
     exists other, other <> path /\ slugify other = slugify path) /\
    (forall rest, slugify (String "/" rest) <> String "/" rest) /\
    (forall before after,
        slugify (before ++ String "/" after) = slugify (before ++ String "-" after)).
Proof.
  intros path. split; [|split].
  - intros Hne. exists (slugify path). split; [exact Hne|].
    rewrite !slugify_chars, mapString_compose.
    apply mapString_ext, anchorChar_idempotent.
  - intros rest. rewrite slugify_chars. cbn. discriminate.
  - intros before after. rewrite !slugify_chars, !mapString_app. reflexivity.
Qed.

Lemma slugify_collisions_witness :
  slugify "/Users" <> "/Users" /\
  exists other, other <> "/Users" /\ slugify other = slugify "/Users".
Proof.
  assert (H : slugify "/Users" <> "/Users") by (vm_compute; discriminate).
  split; [exact H|].
  exact (proj1 (slugify_collisions "/Users") H).
Defined.

(* ================================================================== *)
(** * Anchors of the index, the blocks and the table of contents *)

Lemma Infix_intro (pre needle post hay : string) :
  hay = pre ++ needle ++ post -> Infix_ needle hay.
Proof. intros ->. now exists pre, post. Qed.

Lemma renderMethod_tag (tryItOut : bool) (path method : string) (details : JsVal)
    (block : string) :
  renderMethod tryItOut path (method, details) = Ok block ->
  Infix_ (methodBlockTag (slugify path ++ "-" ++ method) method) block.
Proof.
  intros H. unfold renderMethod in H. returned H. subst block.
  eapply (Infix_intro "
              "). unfold methodBlockTag. rewrite !append_assoc. reflexivity.
Qed.

Lemma tocMethod_link (path method : string) (details : JsVal) :
  Infix_ (tocLink (slugify path ++ "-" ++ method) method)
         (tocMethod path (method, details)).
Proof.
  unfold tocMethod, tocLink.
  eapply (Infix_intro (tpl "
                  <li class=~method-" ++ method ++ tpl "~>
                    ")).
  rewrite !append_assoc. reflexivity.
Qed.

Lemma searchEntry_fields (path method : string) (details : JsVal) (e : SearchEntry.t) :
  searchEntry path (method, details) = Ok e ->
  SearchEntry.path e = path /\ SearchEntry.method e = method /\
  SearchEntry.slug e = slugify path ++ "-" ++ method.
Proof.
  unfold searchEntry. intros H. unbind H summary Hsum.
  apply Ok_inj in H. now subst e.
Qed.

Lemma pushMethods_members (path : string) (ms : list (string * JsVal)) :
  forall acc index e,
    pushMethods path ms acc = Ok index -> In e index ->
    In e acc \/
    exists method details,
      In (method, details) ms /\ searchEntry path (method, details) = Ok e.
Proof.
  induction ms as [|[method details] ms IH]; intros acc index e H Hin.
  - apply Ok_inj in H. subst index. now left.
  - cbn [pushMethods] in H. unbind H e' He'.
    destruct (IH _ _ e H Hin) as [Hacc | (m & d & Hm & Hs)].
    + apply in_app_or in Hacc as [Hacc | [<-|[]]]; [now left|].
      right. exists method, details. split; [now left | exact He'].
    + right. exists m, d. split; [now right | exact Hs].
Qed.

Lemma pushPaths_members (ps : list (string * JsVal)) :
  forall acc index e,
    pushPaths ps acc = Ok index -> In e index ->
    In e acc \/
    exists path methods ms method details,
      In (path, methods) ps /\ entries methods = Ok ms /\
      In (method, details) ms /\ searchEntry path (method, details) = Ok e.
Proof.
  induction ps as [|[path methods] ps IH]; intros acc index e H Hin.
  - apply Ok_inj in H. subst index. now left.
  - cbn [pushPaths] in H. unbind H ms Hms. unbind H acc' Hacc'.
    destruct (IH _ _ e H Hin) as [Hacc | (p & mt & ms' & m & d & Hp & He & Hm & Hs)].
    + destruct (pushMethods_members path ms acc acc' e Hacc' Hacc)
        as [Hold | (m & d & Hm & Hs)]; [now left|].
      right. exists path, methods, ms, m, d.
      repeat split; [now left | exact Hms | exact Hm | exact Hs].
    + right. exists p, mt, ms', m, d.
      repeat split; [now right | exact He | exact Hm | exact Hs].
Qed.

(** An operation that was rendered can be indexed: both read its summary
    first, and the index reads nothing else that can throw. *)
Lemma pushMethods_after_render (tryItOut : bool) (path : string)
      (ms : list (string * JsVal)) :
  forall blocks acc,
    mapM (renderMethod tryItOut path) ms = Ok blocks ->
    exists index, pushMethods path ms acc = Ok index.
Proof.
  induction ms as [|[method details] ms IH]; intros blocks acc H.
  - now exists acc.
  - cbn [mapM] in H. unbind H block Hb. unbind H blocks' Hbs.
    unfold renderMethod in Hb. unbind Hb summary Hsum.
    cbn [pushMethods]. unfold searchEntry. rewrite Hsum. cbn [bind].
    exact (IH _ _ Hbs).
Qed.

Lemma pushPaths_after_render (tryItOut : bool) (ps : list (string * JsVal)) :
  forall groups acc,
    mapM (renderPath tryItOut) ps = Ok groups ->
    exists index, pushPaths ps acc = Ok index.
Proof.
  induction ps as [|[path methods] ps IH]; intros groups acc H.
  - now exists acc.
  - cbn [mapM] in H. unbind H group Hg. unbind H groups' Hgs.
    unfold renderPath in Hg. unbind Hg pathText Hp. unbind Hg ms Hms.
    unbind Hg blocks Hb.
    cbn [pushPaths]. rewrite Hms. cbn [bind].
    destruct (pushMethods_after_render _ _ _ _ acc Hb) as [acc' ->]. cbn [bind].
    exact (IH _ _ Hgs).
Qed.

Lemma renderPath_method_tags (tryItOut : bool) (path : string) (methods : JsVal)
    (ms : list (string * JsVal)) (method : string) (details : JsVal) (group : string) :
  renderPath tryItOut (path, methods) = Ok group ->
  entries methods = Ok ms ->
  In (method, details) ms ->
  Infix_ (methodBlockTag (slugify path ++ "-" ++ method) method) group.
Proof.
  intros H Hms Hin. unfold renderPath in H.
  unbind H pathText Hp. unbind H ms' Hms'.
  rewrite Hms in Hms'. apply Ok_inj in Hms'. subst ms'.
  unbind H blocks Hblocks. apply Ok_inj in H. subst group.
  destruct (mapM_In _ _ _ _ Hblocks Hin) as (block & Hb & Hbin).
  apply (Infix_trans _ block); [exact (renderMethod_tag _ _ _ _ _ Hb)|].
  apply (Infix_trans _ (join blocks)); [now apply In_join | find_infix].
Qed.

Lemma tocPath_links (path : string) (methods : JsVal) (ms : list (string * JsVal))
    (method : string) (details : JsVal) (item : string) :
  tocPath (path, methods) = Ok item ->
  entries methods = Ok ms ->
  In (method, details) ms ->
  Infix_ (tocLink (slugify path ++ "-" ++ method) method) item.
Proof.
  intros H Hms Hin. unfold tocPath in H.
  unbind H pathText Hp. unbind H ms' Hms'.
  rewrite Hms in Hms'. apply Ok_inj in Hms'. subst ms'.
  apply Ok_inj in H. subst item.
  apply (Infix_trans _ (tocMethod path (method, details)));
    [apply tocMethod_link|].
  apply (Infix_trans _ (join (map (tocMethod path) ms))).
  - apply In_join, in_map_iff. now exists (method, details).
  - find_infix.
Qed.

(** X6.  Rendering and indexing agree.  When [generateHTML] returns a
    document, [generateSearchIndex] returns an index for the same spec (it
    cannot throw after the page was rendered), and the slug of every entry
    of that index is the id of the block of its method in the document and,
    with the table of contents enabled, the target of its link there. *)
Theorem search_slugs_are_block_ids :
  forall (spec : JsVal) (options : Options.t) (html : string),
    generateHTML spec options = Ok html ->
    exists index,
      generateSearchIndex spec = Ok index /\
      forall e,
        In e index ->
        Infix_ (methodBlockTag (SearchEntry.slug e) (SearchEntry.method e)) html /\
        (Options.toc options = true ->
         Infix_ (tocLink (SearchEntry.slug e) (SearchEntry.method e)) html).
Proof.
  intros spec [theme logo favicon tryItOut search toc title] html H.
  unfold generateHTML in H.
  unbind H info Hinfo. unbind H titleText Ht. unbind H infoTitle Hi.
  unbind H version Hv. unbind H description Hd. unbind H contact Hc.
  unbind H tocHtml Htoc. unbind H endpoints Hend. unbind H schemas Hsch.
  apply Ok_inj in H.
  assert (Hs : nullish spec = false).
  { unfold get in Hinfo. now destruct (nullish spec). }
  unfold endpointsSection in Hend. unbind Hend ps Hps. unbind Hend groups Hgroups.
  apply Ok_inj in Hend.
  destruct (pushPaths_after_render _ _ _ [] Hgroups) as [index Hindex].
  exists index. split.
  { unfold generateSearchIndex. rewrite (get_value _ _ Hs). cbn [bind].
    rewrite Hps. exact Hindex. }
  intros e Hin.
  destruct (pushPaths_members _ _ _ e Hindex Hin)
    as [[] | (path & methods & ms & method & details & Hp & Hms & Hm & He)].
  destruct (searchEntry_fields _ _ _ _ He) as (_ & -> & ->).
  cbn [Options.toc]. split.
  - destruct (mapM_In _ _ _ _ Hgroups Hp) as (group & Hg & Hgin).
    apply (Infix_trans _ group);
      [exact (renderPath_method_tags _ _ _ _ _ _ _ Hg Hms Hm)|].
    apply (Infix_trans _ (join groups)); [now apply In_join|].
    apply (Infix_trans _ endpoints); [rewrite <- Hend | rewrite <- H]; find_infix.
  - intros ->. apply (Infix_trans _ tocHtml); [|rewrite <- H; find_infix].
    unfold tocBlock in Htoc. unbind Htoc ps' Hps'.
    rewrite Hps in Hps'. apply Ok_inj in Hps'. subst ps'.
    unbind Htoc items Hitems. apply Ok_inj in Htoc. subst tocHtml.
    destruct (mapM_In _ _ _ _ Hitems Hp) as (item & Hit & Hiin).
    apply (Infix_trans _ item);
      [exact (tocPath_links _ _ _ _ _ _ Hit Hms Hm)|].
    apply (Infix_trans _ (join items)); [now apply In_join | find_infix].
Qed.

Lemma search_slugs_are_block_ids_witness :
  exists html,
    generateHTML usersSpec (defaults false) = Ok html /\
    Infix_ (methodBlockTag "-users-get" "get") html.
Proof.
  eexists. split; [vm_compute; reflexivity|].
  destruct (search_slugs_are_block_ids usersSpec (defaults false) _ eq_refl)
    as (index & Hindex & Hall).
  assert (Hi : generateSearchIndex usersSpec =
               Ok [SearchEntry.Build "/users" "get" (JStr "List users") (JStr "")
                                     "-users-get"]) by reflexivity.
  rewrite Hi in Hindex. apply Ok_inj in Hindex. subst index.
  exact (proj1 (Hall _ (or_introl eq_refl))).
Defined.

(* ================================================================== *)
(** * Themes, validation and the loader: more *)

Lemma stylesheets_differ :
  stylesheet (Table dark) <> stylesheet (Table light) /\
  stylesheet (Table dracula) <> stylesheet (Table light) /\
  stylesheet (Table github) <> stylesheet (Table light) /\
  stylesheet Inherited <> stylesheet (Table light).
Proof.
  repeat split; intros E;
    apply (f_equal (fun s => includes s "color: #333333;")) in E;
    vm_compute in E; discriminate.
Qed.

(** X7.  The theme names that give the light stylesheet are [light] itself
    and every name that is neither another theme nor a property that the
    color table inherits from [Object.prototype]; the fallback covers no
    other name. *)
Theorem getCSS_light_exactly :
  forall theme : string,
    getCSS theme = getCSS "light" <->
    theme = "light" \/
    (~ In theme ["dark"; "dracula"; "github"] /\ ~ In theme objectPrototype).
Proof.
  intros theme.
  destruct stylesheets_differ as (Hdark & Hdracula & Hgithub & Hinh).
  unfold getCSS, colors.
  destruct (String.eqb_spec theme "light") as [->|Hl]; [tauto|].
  destruct (String.eqb_spec theme "dark") as [->|Hd].
  { split; [intros E; now destruct (Hdark E)|].
    intros [E | [H _]]; [discriminate | exfalso; apply H; simpl; tauto]. }
  destruct (String.eqb_spec theme "dracula") as [->|Hdr].
  { split; [intros E; now destruct (Hdracula E)|].
    intros [E | [H _]]; [discriminate | exfalso; apply H; simpl; tauto]. }
  destruct (String.eqb_spec theme "github") as [->|Hg].
  { split; [intros E; now destruct (Hgithub E)|].
    intros [E | [H _]]; [discriminate | exfalso; apply H; simpl; tauto]. }
  destruct (existsb (String.eqb theme) objectPrototype) eqn:E.
  - split; [intros E'; now destruct (Hinh E')|].
    intros [E' | [_ H]]; [contradiction|]. exfalso. apply H.
    apply existsb_exists in E as (x & Hin & Hx).
    apply String.eqb_eq in Hx. now subst x.
  - split; [|reflexivity]. intros _. right. split.
    + simpl. intros [H|[H|[H|[]]]]; congruence.
    + intros Hin.
      assert (existsb (String.eqb theme) objectPrototype = true).
      { apply existsb_exists. exists theme. split; [exact Hin | apply String.eqb_refl]. }
      congruence.
Qed.





Lemma finalSegment_suffix (p e : string) :
  occurs "." e = false -> finalSegment (p ++ String "." e) = e.
Proof.
  intros He. induction p as [|a r IH].
  - cbn [append finalSegment]. now rewrite He.
  - cbn [append finalSegment]. rewrite occurs_app. cbn [occurs].
    rewrite Ascii.eqb_refl, orb_true_r. exact IH.
Qed.

(** X9.  A path that ends in a dot and an extension without a dot is
    decoded by that extension alone, whatever precedes it: as YAML for
    [yaml] and [yml], as JSON for every other extension, uppercase spellings
    of the two included. *)
Theorem decoder_of_suffix :
  forall (p e : string),
    occurs "." e = false ->
    decoderFor (p ++ String "." e) =
      (if String.eqb e "yaml" || String.eqb e "yml" then YAML else JSON) /\
    decoderFor (p ++ ".yaml") = YAML /\
    decoderFor (p ++ ".yml") = YAML /\
    decoderFor (p ++ ".YAML") = JSON /\
    decoderFor (p ++ ".YML") = JSON /\
    decoderFor (p ++ ".json") = JSON.
Proof.
  intros p e He.
  assert (H : forall x, occurs "." x = false ->
            decoderFor (p ++ String "." x)
            = if String.eqb x "yaml" || String.eqb x "yml" then YAML else JSON).
  { intros x Hx. unfold decoderFor.
    now rewrite extension_finalSegment, (finalSegment_suffix p x Hx). }
  split; [now apply H|].
  split; [exact (H "yaml" eq_refl)|].
  split; [exact (H "yml" eq_refl)|].
  split; [exact (H "YAML" eq_refl)|].
  split; [exact (H "YML" eq_refl) | exact (H "json" eq_refl)].
Qed.

Lemma decoder_of_suffix_witness :
  occurs "." "yml" = false /\ decoderFor ("specs/v1.2/petstore" ++ ".yml") = YAML.
Proof.
  split; [reflexivity|].
  exact (proj1 (decoder_of_suffix "specs/v1.2/petstore" "yml" eq_refl)).
Defined.

(* ================================================================== *)
(** * The markup of the parameter table and of the response blocks *)

Lemma count_app (c : ascii) (x y : string) :
  count c (x ++ y) = (count c x + count c y)%nat.
Proof. induction x as [|a x IH]; cbn [append count]; [reflexivity | rewrite IH; lia]. Qed.

Lemma occurs_count (c : ascii) (s : string) : occurs c s = false -> count c s = 0%nat.
Proof.
  induction s as [|a r IH]; [reflexivity|].
  cbn [occurs count]. intros H. apply orb_false_iff in H as [-> Hr].
  now rewrite (IH Hr).
Qed.

(** Evaluates the counts of the literal pieces of a template, and names the
    counts that are left before arithmetic is called. *)
Ltac count_literals :=
  repeat match goal with
         | |- context [count ?c (tpl ?s)] =>
             let n := eval vm_compute in (count c (tpl s)) in
             change (count c (tpl s)) with n
         | |- context [count ?c (String ?a ?s)] =>
             let n := eval vm_compute in (count c (String a s)) in
             change (count c (String a s)) with n
         end.

Ltac name_counts :=
  repeat match goal with
         | |- context [count ?c ?s] =>
             let n := fresh "n" in set (n := count c s) in *; clearbody n
         end.

Lemma count_escapeHtml (v : JsVal) (text : string) :
  escapeHtml v = Ok text ->
  count "<" text = 0%nat /\ count ">" text = 0%nat /\
  count dquote text = 0%nat /\ count "'" text = 0%nat.
Proof.
  intros H. destruct (escapeHtml_safe v text H) as (H1 & H2 & H3 & H4).
  repeat split; now apply occurs_count.
Qed.

Lemma count_renderParam (param : JsVal) (row : string) :
  renderParam param = Ok row ->
  count "<" row = 14%nat /\ count ">" row = 14%nat /\
  count dquote row = 0%nat /\ count "'" row = 0%nat.
Proof.
  unfold renderParam. intros H.
  unbind H name Hname. unbind H nameCell Hn. unbind H typeCell Ht.
  unbind H inCell Hi. unbind H descriptionCell Hd.
  apply Ok_inj in H. subst row. unfold paramRow. rewrite !count_app.
  destruct (count_escapeHtml _ _ Hn) as (N1 & N2 & N3 & N4).
  destruct (count_escapeHtml _ _ Ht) as (T1 & T2 & T3 & T4).
  destruct (count_escapeHtml _ _ Hi) as (I1 & I2 & I3 & I4).
  destruct (count_escapeHtml _ _ Hd) as (D1 & D2 & D3 & D4).
  rewrite N1, N2, N3, N4, T1, T2, T3, T4, I1, I2, I3, I4, D1, D2, D3, D4.
  destruct (truthy (prop param "required")); repeat split; reflexivity.
Qed.

Lemma count_join (c : ascii) (k : nat) (rows : list string) :
  Forall (fun r => count c r = k) rows ->
  count c (join rows) = (k * List.length rows)%nat.
Proof.
  induction 1 as [|r rows Hr _ IH]; cbn [join List.length count]; [lia|].
  rewrite count_app, Hr, IH. lia.
Qed.

Lemma mapM_Forall2 {A B} (f : A -> result B) (l : list A) (bs : list B) :
  mapM f l = Ok bs -> Forall2 (fun a b => f a = Ok b) l bs.
Proof.
  revert bs. induction l as [|a l IH]; intros bs H.
  - apply Ok_inj in H. subst bs. constructor.
  - cbn [mapM] in H. unbind H b Hb. unbind H bs' Hbs. apply Ok_inj in H. subst bs.
    constructor; [exact Hb | now apply IH].
Qed.

(** X10.  The parameter table cannot be broken by what the parameters say.
    When it is rendered, its markup is that of the template: with n
    parameters it has 20 + 14 n opening and as many closing angle brackets,
    the two double quotes of its class attribute and no single quote,
    whatever the names, types, places and descriptions are; and it is
    rendered only for an array of parameters that is not empty. *)
Theorem parameter_table_markup_is_fixed :
  forall (details : JsVal) (table : string),
    parametersBlock details = Ok table ->
    (hasLength (prop details "parameters") = false -> table = "") /\
    (hasLength (prop details "parameters") = true ->
     exists l,
       prop details "parameters" = JArr l /\ l <> [] /\
       count "<" table = (20 + 14 * List.length l)%nat /\
       count ">" table = (20 + 14 * List.length l)%nat /\
       count dquote table = 2%nat /\
       count "'" table = 0%nat).
Proof.
  intros details table H. unfold parametersBlock in H.
  destruct (hasLength (prop details "parameters")) eqn:Hlen.
  2:{ apply Ok_inj in H. split; [intros _; now subst table | discriminate]. }
  split; [discriminate|]. intros _.
  destruct (prop details "parameters") as [| | | | |l|] eqn:Hp; try discriminate.
  exists l. split; [reflexivity|]. split.
  { intros ->. discriminate. }
  unbind H rows Hrows. apply Ok_inj in H. subst table.
  pose proof (mapM_Forall2 _ _ _ Hrows) as HF.
  assert (Hlenrows : List.length rows = List.length l)
    by (symmetry; exact (Forall2_length HF)).
  assert (Hrow : Forall (fun r => count "<" r = 14%nat /\ count ">" r = 14%nat /\
                                   count dquote r = 0%nat /\ count "'" r = 0%nat) rows).
  { clear Hrows Hlenrows Hlen Hp. induction HF as [|p r ps rs Hr _ IH]; [constructor|].
    constructor; [exact (count_renderParam p r Hr) | exact IH]. }
  assert (H1 : count "<" (join rows) = (14 * List.length rows)%nat)
    by (apply count_join; revert Hrow; apply Forall_impl; tauto).
  assert (H2 : count ">" (join rows) = (14 * List.length rows)%nat)
    by (apply count_join; revert Hrow; apply Forall_impl; tauto).
  assert (H3 : count dquote (join rows) = (0 * List.length rows)%nat)
    by (apply count_join; revert Hrow; apply Forall_impl; tauto).
  assert (H4 : count "'" (join rows) = (0 * List.length rows)%nat)
    by (apply count_join; revert Hrow; apply Forall_impl; tauto).
  rewrite !count_app, H1, H2, H3, H4, Hlenrows. count_literals.
  repeat split; lia.
Qed.

Lemma parameter_table_markup_is_fixed_witness :
  exists table,
    parametersBlock (JObj [("parameters", JArr [idParam; idParam])]) = Ok table /\
    count "<" table = 48%nat.
Proof.
  eexists. split; [reflexivity|].
  destruct (parameter_table_markup_is_fixed
              (JObj [("parameters", JArr [idParam; idParam])]) _ eq_refl)
    as (_ & H).
  destruct (H eq_refl) as (l & Hl & _ & Hc & _).
  injection Hl as <-. exact Hc.
Defined.

(** X11.  In the block of a response the description and the schema cannot
    add markup, but the status code is embedded as it is: the block has the
    four tags of the template, four more when the response has a JSON
    schema, and one angle bracket more for each one in the status code. *)
Theorem response_block_markup :
  forall (code : string) (response : JsVal) (block : string),
    renderResponse (code, response) = Ok block ->
    let schema := optGet (optGet (prop response "content") "application/json") "schema" in
    let tags := if truthy schema then 8%nat else 4%nat in
    count "<" block = (tags + count "<" code)%nat /\
    count ">" block = (tags + count ">" code)%nat /\
    Infix_ ("<h4>" ++ code ++ " ") block.
Proof.
  intros code response block H schema tags.
  unfold renderResponse in H. unbind H description Hdesc.
  unbind H descriptionText Hd. fold schema in H. unbind H schemaCode Hs.
  apply Ok_inj in H. subst block.
  assert (Hclass : count "<" (responseClass code) = 0%nat /\
                   count ">" (responseClass code) = 0%nat).
  { unfold responseClass.
    destruct (startsWith code "2"); [split; reflexivity|].
    destruct (startsWith code "4"); split; reflexivity. }
  destruct Hclass as [C1 C2].
  destruct (count_escapeHtml _ _ Hd) as (D1 & D2 & _ & _).
  assert (Hcode : count "<" schemaCode = (tags - 4)%nat /\
                  count ">" schemaCode = (tags - 4)%nat).
  { unfold tags. destruct (truthy schema).
    - unbind Hs text Ht. apply Ok_inj in Hs. subst schemaCode.
      destruct (count_escapeHtml _ _ Ht) as (S1 & S2 & _ & _).
      rewrite !count_app, S1, S2. split; reflexivity.
    - apply Ok_inj in Hs. subst schemaCode. split; reflexivity. }
  destruct Hcode as [S1 S2].
  assert (Htags : (4 <= tags)%nat) by (unfold tags; destruct (truthy schema); lia).
  split; [|split].
  - rewrite !count_app, C1, D1, S1. count_literals. name_counts. lia.
  - rewrite !count_app, C2, D2, S2. count_literals. name_counts. lia.
  - eapply (Infix_intro (tpl "
                  <div class=~response response-" ++ responseClass code ++ tpl "~>
                    ")).
    rewrite !append_assoc. reflexivity.
Qed.

Lemma response_block_markup_witness :
  exists block,
    renderResponse ("<b>", JObj [("description", JStr "<i>")]) = Ok block /\
    count "<" block = 5%nat.
Proof.
  eexists. split; [reflexivity|].
  exact (proj1 (response_block_markup "<b>" (JObj [("description", JStr "<i>")]) _ eq_refl)).
Defined.

(* ================================================================== *)
(** * The command line *)

Lemma list_length_ind {A} (P : list A -> Prop) :
  (forall l, (forall l', (List.length l' < List.length l)%nat -> P l') -> P l) ->
  forall l, P l.
Proof.
  intros H l. remember (List.length l) as n eqn:E. revert l E.
  induction n as [n IH] using lt_wf_ind. intros l ->.
  apply H. intros l' Hlt. exact (IH _ Hlt l' eq_refl).
Qed.

Lemma isOneOf_In (arg : string) (names : list string) :
  isOneOf arg names = true <-> In arg names.
Proof.
  unfold isOneOf. rewrite existsb_exists. split.
  - intros (x & Hin & E). apply String.eqb_eq in E. now subst x.
  - intros H. exists arg. split; [exact H | apply String.eqb_refl].
Qed.

Lemma knownFlags_dash (arg : string) :
  In arg knownFlags -> startsWith arg "-" = true.
Proof.
  intros H. repeat (destruct H as [<-|H]; [reflexivity|]). contradiction.
Qed.

Lemma not_dash_not_flag (arg : string) :
  startsWith arg "-" = false ->
  isOneOf arg valueOptions = false /\
  String.eqb arg "--try-it-out" = false /\
  String.eqb arg "--no-search" = false /\
  String.eqb arg "--no-toc" = false /\
  isOneOf arg ["-h"; "--help"] = false /\
  isOneOf arg ["-v"; "--version"] = false.
Proof.
  intros Hd.
  assert (Hno : forall x, In x knownFlags -> String.eqb arg x = false).
  { intros x Hx. destruct (String.eqb_spec arg x) as [->|]; [|reflexivity].
    rewrite (knownFlags_dash x Hx) in Hd. discriminate. }
  assert (Hlist : forall names, incl names knownFlags -> isOneOf arg names = false).
  { intros names Hincl. destruct (isOneOf arg names) eqn:E; [|reflexivity].
    apply isOneOf_In in E. apply Hincl in E.
    rewrite (knownFlags_dash arg E) in Hd. discriminate. }
  repeat split;
    first [ apply Hno; simpl; tauto
          | apply Hlist; intros x Hx; simpl in *; tauto ].
Qed.

Lemma parseLoop_plain (args : list string) :
  Forall (fun a => startsWith a "-" = false) args ->
  forall r,
    parseLoop r args =
    Parsed (Args.Build (Args.inputs r ++ args)%list (Args.output r) (Args.theme r)
                       (Args.logo r) (Args.favicon r) (Args.tryItOut r)
                       (Args.search r) (Args.toc r) (Args.title r)).
Proof.
  induction 1 as [|arg args Hd _ IH]; intros r.
  - cbn [parseLoop]. rewrite app_nil_r. now destruct r.
  - cbn [parseLoop].
    destruct (not_dash_not_flag arg Hd) as (-> & -> & -> & -> & -> & ->).
    rewrite Hd. cbn [negb]. rewrite IH. cbn [withInput Args.inputs Args.output
      Args.theme Args.logo Args.favicon Args.tryItOut Args.search Args.toc Args.title].
    now rewrite <- app_assoc.
Qed.

(** X12.  Arguments none of which starts with a dash are all inputs, in
    their order, and every option keeps its default: output [docs/], theme
    [light], no logo, favicon or title, Try It Out off, search and table of
    contents on. *)
Theorem parseArgs_plain_arguments :
  forall args : list string,
    Forall (fun a => startsWith a "-" = false) args ->
    parseArgs args =
      Parsed (Args.Build args (Some "docs/") (Some "light") None None
                         false true true None).
Proof.
  intros args H. unfold parseArgs. now rewrite (parseLoop_plain args H).
Qed.

Lemma parseArgs_plain_arguments_witness :
  Forall (fun a => startsWith a "-" = false) ["a.yaml"; "b.json"] /\
  parseArgs ["a.yaml"; "b.json"] =
    Parsed (Args.Build ["a.yaml"; "b.json"] (Some "docs/") (Some "light") None None
                       false true true None).
Proof.
  assert (H : Forall (fun a => startsWith a "-" = false) ["a.yaml"; "b.json"])
    by (repeat constructor).
  split; [exact H | exact (parseArgs_plain_arguments _ H)].
Defined.

Lemma setValue_inputs (r : Args.t) (arg : string) (v : option string) :
  Args.inputs (setValue r arg v) = Args.inputs r.
Proof.
  unfold setValue.
  destruct (isOneOf arg ["-o"; "--output"]); [reflexivity|].
  destruct (isOneOf arg ["-t"; "--theme"]); [reflexivity|].
  destruct (String.eqb arg "--logo"); [reflexivity|].
  destruct (String.eqb arg "--favicon"); reflexivity.
Qed.

Lemma Subsequence_nil {A} (l : list A) : Subsequence [] l.
Proof. induction l; constructor; assumption. Qed.

Lemma parseLoop_inputs (args : list string) :
  forall r a,
    parseLoop r args = Parsed a ->
    exists found,
      Args.inputs a = (Args.inputs r ++ found)%list /\
      Subsequence found args /\
      Forall (fun x => startsWith x "-" = false) found.
Proof.
  induction args as [args IH] using list_length_ind. intros r a H.
  destruct args as [|arg rest].
  - injection H as <-. exists []. rewrite app_nil_r. repeat constructor.
  - cbn [parseLoop] in H.
    destruct (isOneOf arg valueOptions).
    { destruct rest as [|nextArg rest'].
      - injection H as <-. exists []. rewrite setValue_inputs, app_nil_r.
        repeat constructor.
      - destruct (IH rest' ltac:(cbn; lia) _ _ H) as (found & E & Hs & Hf).
        exists found. rewrite setValue_inputs in E.
        repeat split; [exact E | now do 2 constructor | exact Hf]. }
    assert (Hskip : forall r', Args.inputs r' = Args.inputs r ->
              parseLoop r' rest = Parsed a ->
              exists found,
                Args.inputs a = (Args.inputs r ++ found)%list /\
                Subsequence found (arg :: rest) /\
                Forall (fun x => startsWith x "-" = false) found).
    { intros r' Hr' H'.
      destruct (IH rest ltac:(cbn; lia) _ _ H') as (found & E & Hs & Hf).
      exists found. rewrite Hr' in E.
      repeat split; [exact E | now constructor | exact Hf]. }
    destruct (String.eqb arg "--try-it-out"); [exact (Hskip (withTryItOut r) eq_refl H)|].
    destruct (String.eqb arg "--no-search"); [exact (Hskip (withoutSearch r) eq_refl H)|].
    destruct (String.eqb arg "--no-toc"); [exact (Hskip (withoutToc r) eq_refl H)|].
    destruct (isOneOf arg ["-h"; "--help"]); [discriminate|].
    destruct (isOneOf arg ["-v"; "--version"]); [discriminate|].
    destruct (startsWith arg "-") eqn:Hd; cbn [negb] in H;
      [exact (Hskip r eq_refl H)|].
    destruct (IH rest ltac:(cbn; lia) _ _ H) as (found & E & Hs & Hf).
    exists (arg :: found). cbn [withInput Args.inputs] in E.
    rewrite <- app_assoc in E.
    repeat split; [exact E | now constructor | now constructor].
Qed.

(** X13.  The inputs that [parseArgs] returns are arguments of the command
    line, in the order in which they were given, and none of them starts
    with a dash: an argument that does is an option, a flag, or ignored. *)
Theorem parseArgs_inputs_are_arguments :
  forall (args : list string) (a : Args.t),
    parseArgs args = Parsed a ->
    Subsequence (Args.inputs a) args /\
    Forall (fun x => startsWith x "-" = false) (Args.inputs a).
Proof.
  intros args a H. unfold parseArgs in H.
  destruct (parseLoop_inputs args defaultArgs a H) as (found & E & Hs & Hf).
  cbn in E. rewrite E. split; assumption.
Qed.

Lemma parseArgs_inputs_are_arguments_witness :
  exists a,
    parseArgs ["-o"; "out"; "api.yaml"; "--bogus"; "--no-toc"] = Parsed a /\
    Args.inputs a = ["api.yaml"] /\
    Subsequence (Args.inputs a) ["-o"; "out"; "api.yaml"; "--bogus"; "--no-toc"].
Proof.
  eexists. split; [reflexivity|]. split; [reflexivity|].
  exact (proj1 (parseArgs_inputs_are_arguments
                  ["-o"; "out"; "api.yaml"; "--bogus"; "--no-toc"] _ eq_refl)).
Defined.

Lemma keptUnless_refl (r : Args.t) (args : list string) : keptUnless r r args.
Proof. unfold keptUnless. repeat split; now left. Qed.

Lemma kept_step {A} (x y z : A) (P Q : Prop) :
  (Q -> P) -> y = x \/ P -> z = y \/ Q -> z = x \/ P.
Proof. intros HQ [->|HP] [->|Hq]; auto. Qed.

Lemma keptUnless_step (r r' a : Args.t) (args rest : list string) :
  incl rest args ->
  keptUnless r r' args ->
  keptUnless r' a rest ->
  keptUnless r a args.
Proof.
  intros Hincl (R1 & R2 & R3 & R4 & R5 & R6 & R7 & R8)
         (A1 & A2 & A3 & A4 & A5 & A6 & A7 & A8).
  assert (Hin : forall x, In x rest -> In x args) by exact Hincl.
  assert (Hin2 : forall x y, In x rest \/ In y rest -> In x args \/ In y args)
    by (intros x y [H|H]; auto).
  unfold keptUnless.
  split; [exact (kept_step _ _ _ _ _ (Hin _) R1 A1)|].
  split; [exact (kept_step _ _ _ _ _ (Hin _) R2 A2)|].
  split; [exact (kept_step _ _ _ _ _ (Hin _) R3 A3)|].
  split; [exact (kept_step _ _ _ _ _ (Hin2 _ _) R4 A4)|].
  split; [exact (kept_step _ _ _ _ _ (Hin2 _ _) R5 A5)|].
  split; [exact (kept_step _ _ _ _ _ (Hin _) R6 A6)|].
  split; [exact (kept_step _ _ _ _ _ (Hin _) R7 A7)|].
  exact (kept_step _ _ _ _ _ (Hin _) R8 A8).
Qed.

Lemma keptUnless_setValue (r : Args.t) (arg : string) (v : option string)
    (rest : list string) :
  isOneOf arg valueOptions = true ->
  keptUnless r (setValue r arg v) (arg :: rest).
Proof.
  intros Hopt. apply isOneOf_In in Hopt. simpl in Hopt.
  destruct Hopt as [<-|[<-|[<-|[<-|[<-|[<-|[<-|[]]]]]]]];
    unfold keptUnless; cbn; repeat split; try (now left); right; auto.
Qed.

Lemma parseLoop_kept (args : list string) :
  forall r,
    match parseLoop r args with
    | Parsed a => keptUnless r a args
    | ShowedHelp => In "-h" args \/ In "--help" args
    | ShowedVersion => In "-v" args \/ In "--version" args
    end.
Proof.
  induction args as [args IH] using list_length_ind. intros r.
  destruct args as [|arg rest]; [apply keptUnless_refl|].
  cbn [parseLoop].
  assert (Hrec : forall r' tail,
            incl tail (arg :: rest) ->
            (List.length tail < List.length (arg :: rest))%nat ->
            keptUnless r r' (arg :: rest) ->
            match parseLoop r' tail with
            | Parsed a => keptUnless r a (arg :: rest)
            | ShowedHelp => In "-h" (arg :: rest) \/ In "--help" (arg :: rest)
            | ShowedVersion => In "-v" (arg :: rest) \/ In "--version" (arg :: rest)
            end).
  { intros r' tail Hincl Hlt Hr'. specialize (IH tail Hlt r').
    destruct (parseLoop r' tail) as [a| |].
    - exact (keptUnless_step r r' a _ _ Hincl Hr' IH).
    - destruct IH as [H|H]; [left | right]; now apply Hincl.
    - destruct IH as [H|H]; [left | right]; now apply Hincl. }
  destruct (isOneOf arg valueOptions) eqn:Hopt.
  { destruct rest as [|nextArg rest'].
    - now apply keptUnless_setValue.
    - apply Hrec; [ intros x Hx; now do 2 right | cbn; lia
                  | now apply keptUnless_setValue ]. }
  assert (Htail : incl rest (arg :: rest)) by (intros x Hx; now right).
  assert (Hlt : (List.length rest < List.length (arg :: rest))%nat) by (cbn; lia).
  destruct (String.eqb_spec arg "--try-it-out") as [->|_].
  { apply Hrec; [exact Htail | exact Hlt|].
    unfold keptUnless. cbn. repeat split; try (now left). right. now left. }
  destruct (String.eqb_spec arg "--no-search") as [->|_].
  { apply Hrec; [exact Htail | exact Hlt|].
    unfold keptUnless. cbn. repeat split; try (now left). right. now left. }
  destruct (String.eqb_spec arg "--no-toc") as [->|_].
  { apply Hrec; [exact Htail | exact Hlt|].
    unfold keptUnless. cbn. repeat split; try (now left). right. now left. }
  destruct (isOneOf arg ["-h"; "--help"]) eqn:Hh.
  { apply isOneOf_In in Hh. destruct Hh as [<-|[<-|[]]]; [left | right]; now left. }
  destruct (isOneOf arg ["-v"; "--version"]) eqn:Hv.
  { apply isOneOf_In in Hv. destruct Hv as [<-|[<-|[]]]; [left | right]; now left. }
  destruct (negb (startsWith arg "-")).
  - apply Hrec; [exact Htail | exact Hlt|].
    unfold keptUnless. cbn. repeat split; now left.
  - apply Hrec; [exact Htail | exact Hlt | apply keptUnless_refl].
Qed.

(** X14.  [parseArgs] changes a setting only when its flag is among the
    arguments, and stops for the help or the version only when one of their
    flags is: without [--try-it-out] Try It Out stays off, without
    [--no-search] and [--no-toc] search and the table of contents stay on,
    and the output, theme, logo, favicon and title keep their defaults unless
    [-o]/[--output], [-t]/[--theme], [--logo], [--favicon] or [--title] is
    given. *)
Theorem parseArgs_defaults_persist :
  forall args : list string,
    match parseArgs args with
    | Parsed a =>
        (Args.tryItOut a = false \/ In "--try-it-out" args) /\
        (Args.search a = true \/ In "--no-search" args) /\
        (Args.toc a = true \/ In "--no-toc" args) /\
        (Args.output a = Some "docs/" \/ In "-o" args \/ In "--output" args) /\
        (Args.theme a = Some "light" \/ In "-t" args \/ In "--theme" args) /\
        (Args.logo a = None \/ In "--logo" args) /\
        (Args.favicon a = None \/ In "--favicon" args) /\
        (Args.title a = None \/ In "--title" args)
    | ShowedHelp => In "-h" args \/ In "--help" args
    | ShowedVersion => In "-v" args \/ In "--version" args
    end.
Proof.
  intros args. unfold parseArgs.
  pose proof (parseLoop_kept args defaultArgs) as H.
  destruct (parseLoop defaultArgs args); [|exact H | exact H].
  exact H.
Qed.

(* ================================================================== *)
(** * The batch of [main] *)

Lemma Subsequence_Forall {A} (P : A -> Prop) (l1 l2 : list A) :
  Subsequence l1 l2 -> Forall P l2 -> Forall P l1.
Proof.
  induction 1 as [|x l1 l2 _ IH|x l1 l2 _ IH]; intros HF.
  - constructor.
  - inversion HF; subst. now apply IH.
  - inversion HF; subst. constructor; [assumption | now apply IH].
Qed.

Lemma parseLoop_app_plain (pre : list string) :
  Forall (fun a => startsWith a "-" = false) pre ->
  forall r tail,
    parseLoop r (pre ++ tail)%list =
    parseLoop (Args.Build (Args.inputs r ++ pre)%list (Args.output r) (Args.theme r)
                          (Args.logo r) (Args.favicon r) (Args.tryItOut r)
                          (Args.search r) (Args.toc r) (Args.title r)) tail.
Proof.
  induction 1 as [|arg pre Hd _ IH]; intros r tail.
  - cbn [app]. rewrite app_nil_r. now destruct r.
  - cbn [app parseLoop].
    destruct (not_dash_not_flag arg Hd) as (-> & -> & -> & -> & -> & ->).
    rewrite Hd. cbn [negb]. rewrite IH. cbn [withInput Args.inputs Args.output
      Args.theme Args.logo Args.favicon Args.tryItOut Args.search Args.toc Args.title].
    now rewrite <- app_assoc.
Qed.

Section CommandLineFacts.
Variable World : Type.
Variable resolve : string -> string.
Variable generateDocs : World -> DocsOptions.t -> Outcome World.

Lemma run_app (xs ys : list string) (a : Args.t) :
  forall w,
    runInputs World resolve generateDocs w a (xs ++ ys)%list =
    match runInputs World resolve generateDocs w a xs with
    | (0%Z, w1) => runInputs World resolve generateDocs w1 a ys
    | other => other
    end.
Proof.
  induction xs as [|x xs IH]; intros w; [reflexivity|].
  cbn [app runInputs].
  destruct (docsOptions resolve a x) as [o|]; [|reflexivity].
  destruct (generateDocs w o) as [w1|w1]; [apply IH | reflexivity].
Qed.

Lemma run_code (inputs : list string) (a : Args.t) :
  forall w,
    fst (runInputs World resolve generateDocs w a inputs) = 0%Z \/
    fst (runInputs World resolve generateDocs w a inputs) = 1%Z.
Proof.
  induction inputs as [|x xs IH]; intros w; [now left|].
  cbn [runInputs].
  destruct (docsOptions resolve a x) as [o|]; [|now right].
  destruct (generateDocs w o) as [w1|w1]; [apply IH | now right].
Qed.

Lemma run_failed (inputs : list string) (a : Args.t) :
  forall w w',
    runInputs World resolve generateDocs w a inputs = (1%Z, w') ->
    exists done failed rest w1,
      inputs = (done ++ failed :: rest)%list /\
      runInputs World resolve generateDocs w a done = (0%Z, w1) /\
      ((docsOptions resolve a failed = TypeError /\ w' = w1) \/
       exists o, docsOptions resolve a failed = Ok o /\ generateDocs w1 o = Threw w').
Proof.
  induction inputs as [|x xs IH]; intros w w' H; [discriminate|].
  cbn [runInputs] in H.
  destruct (docsOptions resolve a x) as [o|] eqn:Ho.
  - destruct (generateDocs w o) as [w1|w1] eqn:Hg.
    + destruct (IH w1 w' H) as (done & failed & rest & w2 & -> & Hdone & Hfail).
      exists (x :: done), failed, rest, w2.
      split; [reflexivity|]. split; [|exact Hfail].
      cbn [runInputs]. rewrite Ho, Hg. exact Hdone.
    + injection H as <-.
      exists [], x, xs, w. split; [reflexivity|]. split; [reflexivity|].
      right. exists o. split; [exact Ho | exact Hg].
  - injection H as <-. exists [], x, xs, w.
    split; [reflexivity|]. split; [reflexivity|]. left. split; [exact Ho | reflexivity].
Qed.

(** X15.  The batch of [main].  With inputs on the command line, they are
    handed to [generateDocs] one after the other, each in the world the one
    before left, and the exit code is 0 or 1.  The first input that fails
    ends the batch with exit code 1: the world is then what that call left
    after the inputs before it, and no input after it is handed to
    [generateDocs] (nothing that was generated is undone).  With exit code 0
    the world is what generating the last input left after all the
    others. *)
Theorem main_batch :
  forall (w w' : World) (argv : list string) (a : Args.t) (code : Z),
    parseArgs argv = Parsed a ->
    Args.inputs a <> [] ->
    main World resolve generateDocs w argv = (code, w') ->
    let run := runInputs World resolve generateDocs in
    (code = 0%Z \/ code = 1%Z) /\
    (code = 1%Z ->
     exists done failed rest w1,
       Args.inputs a = (done ++ failed :: rest)%list /\
       run w a done = (0%Z, w1) /\
       ((docsOptions resolve a failed = TypeError /\ w' = w1) \/
        exists o, docsOptions resolve a failed = Ok o /\ generateDocs w1 o = Threw w')) /\
    (code = 0%Z ->
     forall init last,
       Args.inputs a = (init ++ [last])%list ->
       exists w1 o,
         run w a init = (0%Z, w1) /\
         docsOptions resolve a last = Ok o /\
         generateDocs w1 o = Returned w').
Proof.
  intros w w' argv a code Hp Hne H run.
  assert (Hrun : run w a (Args.inputs a) = (code, w')).
  { unfold main in H. rewrite Hp in H.
    destruct (Args.inputs a) as [|x xs]; [now destruct Hne | exact H]. }
  clear H. split; [|split].
  - pose proof (run_code (Args.inputs a) a w) as Hc. fold run in Hc.
    now rewrite Hrun in Hc.
  - intros ->. exact (run_failed _ a w w' Hrun).
  - intros -> init last E. rewrite E in Hrun. unfold run in Hrun.
    rewrite run_app in Hrun. fold run in Hrun.
    destruct (run w a init) as [c w1] eqn:Hinit.
    pose proof (run_code init a w) as Hc. fold run in Hc.
    rewrite Hinit in Hc. cbn [fst] in Hc.
    destruct Hc as [-> | ->]; [|discriminate].
    unfold run in Hrun. cbn [runInputs] in Hrun.
    destruct (docsOptions resolve a last) as [o|] eqn:Ho; [|discriminate].
    destruct (generateDocs w1 o) as [w2|w2] eqn:Hg; [|discriminate].
    injection Hrun as <-. now exists w1, o.
Qed.

(** X16.  When [main] generates nothing.  A command line on which every
    argument starts with a dash and none is a help or version flag has no
    input: exit code 1, the world untouched.  A help or version flag after
    inputs only ends the run with exit code 0 and the world untouched.  And
    an output option that ends the command line leaves the output undefined,
    on which [resolve] throws: exit code 1, the world untouched, whatever
    inputs precede it. *)
Theorem main_generates_nothing :
  forall (w : World) (args : list string),
    let main_ := main World resolve generateDocs in
    (Forall (fun a => startsWith a "-" = true) args ->
     ~ In "-h" args -> ~ In "--help" args ->
     ~ In "-v" args -> ~ In "--version" args ->
     main_ w args = (1%Z, w)) /\
    (Forall (fun a => startsWith a "-" = false) args ->
     forall rest,
       main_ w (args ++ "--help" :: rest)%list = (0%Z, w) /\
       main_ w (args ++ "-h" :: rest)%list = (0%Z, w) /\
       main_ w (args ++ "--version" :: rest)%list = (0%Z, w) /\
       main_ w (args ++ "-v" :: rest)%list = (0%Z, w)) /\
    (Forall (fun a => startsWith a "-" = false) args ->
     main_ w (args ++ ["-o"])%list = (1%Z, w) /\
     main_ w (args ++ ["--output"])%list = (1%Z, w)).
Proof.
  intros w args main_. split; [|split].
  - intros Hdash Nh Nhelp Nv Nversion. unfold main_, main, parseArgs.
    pose proof (parseLoop_kept args defaultArgs) as Hk.
    destruct (parseLoop defaultArgs args) as [a| |] eqn:Hp; [|tauto|tauto].
    destruct (parseLoop_inputs args defaultArgs a Hp) as (found & E & Hs & Hf).
    cbn in E. destruct found as [|x found]; [now rewrite E|].
    exfalso. pose proof (Subsequence_Forall _ _ _ Hs Hdash) as Hd.
    inversion Hd; subst. inversion Hf; subst. congruence.
  - intros Hplain rest. unfold main_, main, parseArgs.
    rewrite !(parseLoop_app_plain args Hplain). repeat split; reflexivity.
  - intros Hplain. unfold main_, main, parseArgs.
    rewrite !(parseLoop_app_plain args Hplain). cbn.
    destruct args; split; reflexivity.
Qed.
End CommandLineFacts.

Lemma main_batch_witness :
  parseArgs ["a.yaml"; "broken.json"; "c.yaml"]
    = Parsed (Args.Build ["a.yaml"; "broken.json"; "c.yaml"] (Some "docs/")
                         (Some "light") None None false true true None) /\
  main (list string) (fun p => p) sampleGenerateDocs [] ["a.yaml"; "broken.json"; "c.yaml"]
    = (1%Z, ["a.yaml"]) /\
  exists done failed rest,
    ["a.yaml"; "broken.json"; "c.yaml"] = (done ++ failed :: rest)%list /\
    runInputs (list string) (fun p => p) sampleGenerateDocs []
              (Args.Build ["a.yaml"; "broken.json"; "c.yaml"] (Some "docs/")
                          (Some "light") None None false true true None)
              done = (0%Z, ["a.yaml"]).
Proof.
  split; [reflexivity|]. split; [reflexivity|].
  destruct (main_batch (list string) (fun p => p) sampleGenerateDocs
              [] ["a.yaml"] ["a.yaml"; "broken.json"; "c.yaml"] _ 1%Z
              eq_refl ltac:(discriminate) eq_refl)
    as (_ & Hfail & _).
  destruct (Hfail eq_refl) as (done & failed & rest & w1 & E & Hdone & Hf).
  exists done, failed, rest. split; [exact E|].
  destruct done as [|d1 [|d2 done]].
  - exfalso. cbn in E. injection E as <- <-.
    destruct Hf as [[Hf _] | (o & Ho & Hg)]; [discriminate|].
    injection Ho as <-. discriminate.
  - cbn in E. injection E as <- <- <-. vm_compute in Hdone.
    injection Hdone as <-. reflexivity.
  - exfalso. cbn in E. injection E as <- <- E.
    cbn in Hdone. discriminate.
Defined.

Lemma main_generates_nothing_witness :
  Forall (fun a => startsWith a "-" = true) ["--no-search"; "--try-it-out"] /\
  main (list string) (fun p => p) sampleGenerateDocs []
       ["--no-search"; "--try-it-out"] = (1%Z, []) /\
  main (list string) (fun p => p) sampleGenerateDocs []
       (["a.yaml"] ++ ["-o"]) = (1%Z, []).
Proof.
  assert (Hd : Forall (fun a => startsWith a "-" = true) ["--no-search"; "--try-it-out"])
    by (repeat constructor).
  assert (Hp : Forall (fun a => startsWith a "-" = false) ["a.yaml"])
    by (repeat constructor).
  destruct (main_generates_nothing (list string) (fun p => p) sampleGenerateDocs
              [] ["--no-search"; "--try-it-out"]) as (H1 & _ & _).
  destruct (main_generates_nothing (list string) (fun p => p) sampleGenerateDocs
              [] ["a.yaml"]) as (_ & _ & H3).
  split; [exact Hd|]. split.
  - apply (H1 Hd); simpl; intuition discriminate.
  - exact (proj1 (H3 Hp)).
Defined.

(* ================================================================== *)
(** * When the indexer returns *)

Lemma isOk_bind {A B} (r : result A) (k : A -> result B) :
  isOk (bind r k) = match r with Ok a => isOk (k a) | TypeError => false end.
Proof. now destruct r. Qed.

Lemma entries_ownEntries (v : JsVal) :
  entries v = if nullish v then TypeError else Ok (ownEntries v).
Proof. now destruct v. Qed.

Lemma entriesOrEmpty_ownEntries (v : JsVal) :
  entriesOrEmpty v = Ok (ownEntries (orElse v (JObj []))).
Proof.
  unfold entriesOrEmpty. rewrite entries_ownEntries.
  unfold orElse. destruct (truthy v) eqn:H; [|reflexivity].
  now rewrite (truthy_not_nullish _ H).
Qed.

Lemma isOk_searchEntry (path : string) (entry : string * JsVal) :
  isOk (searchEntry path entry) = isValue (snd entry).
Proof.
  destruct entry as [method details]. cbn [snd]. unfold searchEntry.
  rewrite isOk_bind. unfold get, isValue. now destruct (nullish details).
Qed.

Lemma isOk_pushMethods (path : string) (ms : list (string * JsVal)) :
  forall acc, isOk (pushMethods path ms acc) = forallb (fun m => isValue (snd m)) ms.
Proof.
  induction ms as [|m ms IH]; intros acc; [reflexivity|].
  cbn [pushMethods forallb]. rewrite isOk_bind, <- (isOk_searchEntry path m).
  destruct (searchEntry path m); [apply IH | reflexivity].
Qed.

Lemma isOk_pushPaths (ps : list (string * JsVal)) :
  forall acc, isOk (pushPaths ps acc) = forallb (fun p => pathIndexable (snd p)) ps.
Proof.
  induction ps as [|[path methods] ps IH]; intros acc; [reflexivity|].
  cbn [pushPaths forallb snd]. unfold pathIndexable at 1. unfold isValue at 1.
  rewrite entries_ownEntries. destruct (nullish methods); [reflexivity|].
  cbn [bind negb andb]. rewrite isOk_bind.
  rewrite <- (isOk_pushMethods path (ownEntries methods) acc).
  destruct (pushMethods path (ownEntries methods) acc); [apply IH | reflexivity].
Qed.

Lemma isOk_generateSearchIndex (spec : JsVal) :
  isOk (generateSearchIndex spec) = indexable spec.
Proof.
  unfold generateSearchIndex, indexable. rewrite isOk_bind.
  unfold get, isValue. destruct (nullish spec); [reflexivity|].
  cbn [negb andb]. rewrite entriesOrEmpty_ownEntries. cbn [bind].
  apply isOk_pushPaths.
Qed.

(** X17.  [generateSearchIndex] returns exactly on the documents that are
    [indexable]: the document is a value, no path maps to null and no
    operation is null; on every other document it throws a TypeError.  What
    else an operation holds (parameters, responses) does not matter to it. *)
Theorem generateSearchIndex_returns_iff_indexable :
  forall spec : JsVal,
    ((exists index, generateSearchIndex spec = Ok index) <-> indexable spec = true) /\
    (generateSearchIndex spec = TypeError <-> indexable spec = false).
Proof.
  intros spec. rewrite <- (isOk_generateSearchIndex spec).
  destruct (generateSearchIndex spec) as [index|]; cbn [isOk]; split; split;
    try discriminate; try reflexivity.
  - intros _. now exists index.
  - intros [index H]. discriminate.
Qed.

(* ================================================================== *)
(** * The schemas section and the contact links *)

Lemma count_renderSchema (entry : string * JsVal) (item : string) :
  renderSchema entry = Ok item ->
  count "<" item = 8%nat /\ count ">" item = 8%nat /\
  count dquote item = 4%nat /\ count "'" item = 0%nat.
Proof.
  destruct entry as [name schema]. unfold renderSchema. intros H.
  unbind H nameText Hn. unbind H text Ht. apply Ok_inj in H. subst item.
  rewrite !count_app.
  destruct (count_escapeHtml _ _ Hn) as (N1 & N2 & N3 & N4).
  destruct (count_escapeHtml _ _ Ht) as (S1 & S2 & S3 & S4).
  rewrite N1, N2, N3, N4, S1, S2, S3, S4. repeat split; reflexivity.
Qed.

(** X18.  The schemas section never throws, is empty when
    [components.schemas] is falsy, and otherwise has the markup of the
    template whatever the names and the schemas are: with n schemas, 4 + 8 n
    opening and as many closing angle brackets, 2 + 4 n double quotes and no
    single quote. *)
Theorem schemas_section_markup_is_fixed :
  forall spec : JsVal,
    let schemas := optGet (prop spec "components") "schemas" in
    exists text,
      schemasBlock spec = Ok text /\
      (truthy schemas = false -> text = "") /\
      (truthy schemas = true ->
       exists ss,
         entries schemas = Ok ss /\
         count "<" text = (4 + 8 * List.length ss)%nat /\
         count ">" text = (4 + 8 * List.length ss)%nat /\
         count dquote text = (2 + 4 * List.length ss)%nat /\
         count "'" text = 0%nat).
Proof.
  intros spec schemas.
  destruct (schemasBlock_total spec) as [text Htext].
  exists text. split; [exact Htext|].
  unfold schemasBlock in Htext. fold schemas in Htext.
  destruct (truthy schemas) eqn:Ht.
  2:{ apply Ok_inj in Htext. split; [now intros _ | discriminate]. }
  split; [discriminate|]. intros _.
  unbind Htext ss Hss. unbind Htext items Hitems. apply Ok_inj in Htext. subst text.
  exists ss. split; [exact Hss|].
  pose proof (mapM_Forall2 _ _ _ Hitems) as HF.
  assert (Hlen : List.length items = List.length ss)
    by (symmetry; exact (Forall2_length HF)).
  assert (Hitem : Forall (fun r => count "<" r = 8%nat /\ count ">" r = 8%nat /\
                                    count dquote r = 4%nat /\ count "'" r = 0%nat) items).
  { clear Hitems Hlen Hss. induction HF as [|e r es rs Hr _ IH]; [constructor|].
    constructor; [exact (count_renderSchema e r Hr) | exact IH]. }
  assert (H1 : count "<" (join items) = (8 * List.length items)%nat)
    by (apply count_join; revert Hitem; apply Forall_impl; tauto).
  assert (H2 : count ">" (join items) = (8 * List.length items)%nat)
    by (apply count_join; revert Hitem; apply Forall_impl; tauto).
  assert (H3 : count dquote (join items) = (4 * List.length items)%nat)
    by (apply count_join; revert Hitem; apply Forall_impl; tauto).
  assert (H4 : count "'" (join items) = (0 * List.length items)%nat)
    by (apply count_join; revert Hitem; apply Forall_impl; tauto).
  rewrite !count_app, H1, H2, H3, H4, Hlen. count_literals.
  repeat split; lia.
Qed.

(** X19.  The contact links are escaped in their text only.  For a contact
    whose address and link are texts, the paragraph carries each of them as
    it is inside the [href] attribute and escaped as the text of the link;
    so a link with a double quote ends its attribute, as in the document of
    [quotedContact], where the raw text follows the quote. *)
Theorem contact_links_embed_raw_text :
  forall (info contact : JsVal) (email url : string),
    optGet info "contact" = contact ->
    truthy contact = true ->
    prop contact "email" = JStr email ->
    prop contact "url" = JStr url ->
    email <> "" ->
    url <> "" ->
    (exists paragraph,
        contactBlock info = Ok paragraph /\
        Infix_ (tpl "<a href=~mailto:" ++ email ++ tpl "~>" ++ escapedForm email ++ "</a>")
               paragraph /\
        Infix_ (tpl "<a href=~" ++ url ++ tpl "~ target=~_blank~>" ++ escapedForm url ++ "</a>")
               paragraph) /\
    (exists html,
        generateHTML quotedContact (defaults false) = Ok html /\
        Infix_ (tpl "<a href=~~><script>~ target=~_blank~>&quot;&gt;&lt;script&gt;</a>") html).
Proof.
  intros info contact email url Hc Ht He Hu Hne Hnu. split.
  - unfold contactBlock. rewrite Hc, Ht, He, Hu.
    assert (Te : truthy (JStr email) = true).
    { cbn [truthy]. destruct (String.eqb_spec email ""); [contradiction | reflexivity]. }
    assert (Tu : truthy (JStr url) = true).
    { cbn [truthy]. destruct (String.eqb_spec url ""); [contradiction | reflexivity]. }
    rewrite Te, Tu, !escapeHtml_text. cbn [toStr bind].
    eexists. split; [reflexivity|]. split.
    + eapply (Infix_intro (tpl "
          <p class=~contact~>
            ")). rewrite !append_assoc. reflexivity.
    + apply Infix_app_r, Infix_app_r, Infix_app_r.
      eapply (Infix_intro " | "). rewrite !append_assoc. reflexivity.
  - eexists. split; [vm_compute; reflexivity|]. infix_by_evaluation.
Qed.

Lemma contact_links_embed_raw_text_witness :
  exists paragraph,
    contactBlock (JObj [("contact", JObj [("email", JStr "a@b.c"); ("url", JStr "x?a&b")])])
      = Ok paragraph /\
    Infix_ (tpl "<a href=~x?a&b~ target=~_blank~>x?a&amp;b</a>") paragraph.
Proof.
  destruct (contact_links_embed_raw_text
              (JObj [("contact", JObj [("email", JStr "a@b.c"); ("url", JStr "x?a&b")])])
              (JObj [("email", JStr "a@b.c"); ("url", JStr "x?a&b")])
              "a@b.c" "x?a&b" eq_refl eq_refl eq_refl eq_refl
              ltac:(discriminate) ltac:(discriminate))
    as ((paragraph & Hp & _ & Hu) & _).
  exists paragraph. split; [exact Hp | exact Hu].
Defined.
